(** * ArtworksTable: selection bookkeeping and multi-page bulk selection

    A shallow embedding of the state logic of the [ArtworksTable] React
    component: the persisted selection map, the checkbox handlers and the
    [applyAutoSelect] helper that gathers pages and picks rows by strategy.

    Conventions of the embedding:
    - a JavaScript [number] that holds a count, a page or an index is a [Z]
      (the number input only produces integers); [selectNumber], which may be
      [undefined], is an [option Z];
    - [Record<number, SelectedMeta>] is a [gmap Z SelectedMeta];
    - the network is an oracle [server] from page numbers to responses, and
      [Math.random] is an oracle [random] from the call count to a rational;
    - every call of [fetchPageData] is recorded in a trace of page numbers. *)

From Stdlib Require Import Ascii String ZArith QArith Qround.
From stdpp Require Import gmap strings list list_numbers fin_maps pretty.
From Equations Require Import Equations.

Local Open Scope Z_scope.

(** ** Data model *)

(** [type Artwork]; the fields carry a prefix because [id] is taken. *)
Record Artwork := mkArtwork {
  art_id : Z;
  art_title : option string;
  art_artist_display : option string;
  art_place_of_origin : option string;
  art_date_start : option Z;
  art_image_id : option string
}.

(** [type SelectedMeta]. *)
Record SelectedMeta := mkSelectedMeta {
  sm_id : Z;
  sm_title : option string;
  sm_artist_display : option string
}.

(** [type Strategy = "first" | "random" | "every"]. *)
Inductive Strategy := first | random_ | every.

(** The constant state [const [rowsPerPage] = useState(12)]: no setter. *)
Definition rowsPerPage : Z := 12.

(** What [axios.get] does for one page: the promise rejects (or the body has
    no [data] object at all, which throws inside the [try]), or it resolves
    with a body whose [data] array may be missing. *)
Inductive Response :=
| Rejected
| Resolved (data : option (list Artwork)).

(** The snapshot [{ id: item.id, title: item.title,
    artist_display: item.artist_display }] written at lines 123 and 212. *)
Definition metaOf (item : Artwork) : SelectedMeta :=
  {| sm_id := art_id item;
     sm_title := art_title item;
     sm_artist_display := art_artist_display item |}.

(** ** Arithmetic of the page window *)

(** [Math.ceil(a / b)] on integers, for a positive divisor. *)
Definition ceil_div (a b : Z) : Z := - ((- a) / b).

(** [Math.max(1, Math.ceil((totalRecords || 0) / rowsPerPage))]; on an
    integer [totalRecords || 0] is [totalRecords]. *)
Definition totalPagesOf (totalRecords : Z) : Z :=
  Z.max 1 (ceil_div totalRecords rowsPerPage).

(** ** Arrays indexed by a JavaScript number *)

(** [arr[i]] for an index that may be [undefined] or out of range: the
    result is [undefined], here [None]. *)
Definition at_index {A} (arr : list A) (i : option Z) : option A :=
  match i with
  | None => None
  | Some z => if z <? 0 then None else arr !! Z.to_nat z
  end.

(** [Array.from({ length: len }, (_, i) => i)]. *)
Definition array_from_length (len : Z) : list Z := seqZ 0 len.

(** [arr.splice(start, 1)]: the removed elements (at most one) and the array
    that is left. A negative [start] counts from the end, a [start] beyond
    the end removes nothing. *)
Definition splice1 {A} (start : Z) (arr : list A) : list A * list A :=
  let len := Z.of_nat (length arr) in
  let actualStart :=
    if start <? 0 then Z.max (len + start) 0 else Z.min start len in
  let k := Z.to_nat actualStart in
  (take 1 (drop k arr), take k arr ++ drop (S k) arr).

(** ** The accumulation loop, lines 173-181 *)

Section Fetching.
Variable server : Z → Response.

(** [fetchPageData], lines 152-161. *)
Definition fetchPageData (p : Z) : list Artwork :=
  match server p with
  | Resolved (Some d) => d
  | Resolved None => []
  | Rejected => []
  end.

(** [while (combined.length < n && nextPage <= totalPages)]: the state is
    the buffer, the page cursor, and the ghost trace of the pages that
    [fetchPageData] was called on. *)
Equations? fetch_loop (n totalPages : Z) (combined : list Artwork)
    (nextPage : Z) (fetched : list Z) : list Artwork * Z * list Z
    by wf (Z.to_nat (totalPages + 1 - nextPage)) lt :=
  fetch_loop n totalPages combined nextPage fetched
    with decide (Z.of_nat (length combined) < n ∧ nextPage ≤ totalPages) => {
    | left _ =>
        fetch_loop n totalPages (combined ++ fetchPageData nextPage)
                   (nextPage + 1) (fetched ++ [nextPage]);
    | right _ => (combined, nextPage, fetched) }.
Proof. lia. Qed.

End Fetching.

(** ** Choosing the indices, lines 183-206 *)

Section Picking.
Variable random : nat → Q.

(** One turn of [for (let i = 0; i < pickCount; i++)], lines 192-193: the
    [i]-th call of [Math.random], the floor of its product with the pool
    length, and the push of [pool.splice(pick, 1)[0]], which is
    [undefined] when nothing was removed. *)
Definition random_step (st : list Z * list (option Z)) (i : nat)
    : list Z * list (option Z) :=
  let pool := st.1 in
  let indices := st.2 in
  let pick := Qfloor (random i * inject_Z (Z.of_nat (length pool))) in
  let spl := splice1 pick pool in
  (spl.2, indices ++ [head spl.1]).

Definition random_loop (availableCount pickCount : Z)
    : list Z * list (option Z) :=
  foldl random_step (array_from_length availableCount, [])
        (seq 0 (Z.to_nat pickCount)).

(** [while (indices.length < pickCount && idx < availableCount)],
    lines 201-204. *)
Equations? every_loop (pickCount availableCount step : Z)
    (indices : list (option Z)) (idx : Z) : list (option Z)
    by wf (Z.to_nat (pickCount - Z.of_nat (length indices))) lt :=
  every_loop pickCount availableCount step indices idx
    with decide (Z.of_nat (length indices) < pickCount
                 ∧ idx < availableCount) => {
    | left _ =>
        every_loop pickCount availableCount step
                   (indices ++ [Some idx]) (idx + step);
    | right _ => indices }.
Proof. rewrite length_app. simpl. lia. Qed.

(** [selectNumber && selectNumber >= 1 ? selectNumber : 1], line 196. *)
Definition stepOf (selectNumber : option Z) : Z :=
  match selectNumber with
  | Some s => if negb (s =? 0) && (1 <=? s) then s else 1
  | None => 1
  end.

(** Lines 183-206, for the buffer length [availableCount]. *)
Definition pick_indices (strategy : Strategy) (selectNumber : option Z)
    (n availableCount : Z) : list (option Z) :=
  let pickCount := Z.min n availableCount in
  match strategy with
  | first => Some <$> array_from_length pickCount
  | random_ => (random_loop availableCount pickCount).2
  | every =>
      let step := stepOf selectNumber in
      if step =? 1 then Some <$> array_from_length pickCount
      else every_loop pickCount availableCount step [] 0
  end.

End Picking.

(** ** Writing the picks into the map, lines 208-214 *)

(** The body of [indices.forEach]: the guard [if (item)] skips an index whose
    lookup is [undefined]. *)
Definition write_pick (combined : list Artwork) (base : gmap Z SelectedMeta)
    (i : option Z) : gmap Z SelectedMeta :=
  match at_index combined i with
  | Some item => <[art_id item := metaOf item]> base
  | None => base
  end.

Definition write_picks (combined : list Artwork) (base : gmap Z SelectedMeta)
    (indices : list (option Z)) : gmap Z SelectedMeta :=
  foldl (write_pick combined) base indices.

(** ** Component state and handlers *)

Record State := mkState {
  rows : list Artwork;
  page : Z;
  totalRecords : Z;
  selectedMap : gmap Z SelectedMeta;
  showClearDialog : bool;
  overlayVisible : bool;
  selectNumber : option Z;
  strategy : Strategy;
  addToExisting : bool;
  selectingLoading : bool
}.

Definition setSelectedMap (m : gmap Z SelectedMeta) (st : State) : State :=
  mkState (rows st) (page st) (totalRecords st) m (showClearDialog st)
          (overlayVisible st) (selectNumber st) (strategy st)
          (addToExisting st) (selectingLoading st).

Definition setShowClearDialog (b : bool) (st : State) : State :=
  mkState (rows st) (page st) (totalRecords st) (selectedMap st) b
          (overlayVisible st) (selectNumber st) (strategy st)
          (addToExisting st) (selectingLoading st).

(** [overlayRef.current?.hide?.()]. *)
Definition hideOverlay (st : State) : State :=
  mkState (rows st) (page st) (totalRecords st) (selectedMap st)
          (showClearDialog st) false (selectNumber st) (strategy st)
          (addToExisting st) (selectingLoading st).

Definition setSelectingLoading (b : bool) (st : State) : State :=
  mkState (rows st) (page st) (totalRecords st) (selectedMap st)
          (showClearDialog st) (overlayVisible st) (selectNumber st)
          (strategy st) (addToExisting st) b.

(** [onCheckboxChange], lines 118-129; [event.checked ?? false]. *)
Definition onCheckboxChange (row : Artwork) (event_checked : option bool)
    (st : State) : State :=
  let checked := default false event_checked in
  let prev := selectedMap st in
  setSelectedMap
    (if checked then <[art_id row := metaOf row]> prev
     else delete (art_id row) prev) st.

(** [deselectId], lines 131-137. *)
Definition deselectId (id : Z) (st : State) : State :=
  setSelectedMap (delete id (selectedMap st)) st.

(** [doClearSelections], lines 147-150. *)
Definition doClearSelections (st : State) : State :=
  setShowClearDialog false (setSelectedMap ∅ st).

(** [const n = selectNumber ?? 0], line 164. *)
Definition targetCount (st : State) : Z := default 0 (selectNumber st).

Section BulkSelector.
Variable server : Z → Response.
Variable random : nat → Q.

(** Lines 173-181: the buffer and the trace of fetched pages. *)
Definition gather (n : Z) (st : State) : list Artwork * list Z :=
  let totalPages := totalPagesOf (totalRecords st) in
  let r := fetch_loop server n totalPages (rows st) (page st + 1) [] in
  (r.1.1, r.2).

(** [applyAutoSelect], lines 163-221: the state after the call and the
    pages that were fetched on the way. *)
Definition applyAutoSelect (st : State) : State * list Z :=
  let n := targetCount st in
  if n <=? 0 then (hideOverlay st, [])
  else
    let st1 := setSelectingLoading true st in
    let g := gather n st in
    let combined := g.1 in
    let availableCount := Z.of_nat (length combined) in
    let indices :=
      pick_indices random (strategy st) (selectNumber st) n availableCount in
    let base := if addToExisting st then selectedMap st else ∅ in
    let base' := write_picks combined base indices in
    (setSelectingLoading false (hideOverlay (setSelectedMap base' st1)), g.2).

End BulkSelector.

(** ** Named intermediate values of [applyAutoSelect] *)

Section Locals.
Variable server : Z → Response.
Variable random : nat → Q.

(** [combined] once the loop has ended, line 183. *)
Definition selection_buffer (st : State) : list Artwork :=
  (gather server (targetCount st) st).1.

(** [indices] when [forEach] starts, line 209. *)
Definition selection_indices (st : State) : list (option Z) :=
  pick_indices random (strategy st) (selectNumber st) (targetCount st)
               (Z.of_nat (length (selection_buffer st))).

(** The buffer after [k] more pages, starting at page [p]. *)
Definition buffer_after (combined : list Artwork) (p k : Z) : list Artwork :=
  combined ++ concat (fetchPageData server <$> seqZ p k).

(** What a run of the loop from a given loop state amounts to: [k] turns,
    each one fetching the next sequential page. *)
Record loop_run (n totalPages : Z) (combined : list Artwork)
    (nextPage : Z) (fetched : list Z)
    (r : list Artwork * Z * list Z) (k : Z) : Prop := {
  run_turns : 0 ≤ k ≤ Z.max 0 (totalPages + 1 - nextPage);
  run_result :
    r = (buffer_after combined nextPage k, nextPage + k,
         fetched ++ seqZ nextPage k);
  run_short : ∀ j, 0 ≤ j < k →
    Z.of_nat (length (buffer_after combined nextPage j)) < n;
  run_exit :
    n ≤ Z.of_nat (length (buffer_after combined nextPage k))
    ∨ totalPages < nextPage + k
}.

End Locals.

(** The items that pass the guard [if (item)], in [forEach] order. *)
Definition picked_items (combined : list Artwork) (indices : list (option Z))
    : list Artwork :=
  omap (at_index combined) indices.

(** The set [S] of newly picked entries, stated apart from the code that
    writes them: the map from the id of each picked item to the snapshot of
    that item, a later pick of the same id replacing an earlier one
    ([list_to_map] keeps the first pair of a key, hence the [reverse]). *)
Definition picked_entries (combined : list Artwork)
    (indices : list (option Z)) : gmap Z SelectedMeta :=
  list_to_map
    (reverse ((λ item, (art_id item, metaOf item))
                <$> picked_items combined indices)).

(** The invariant of the selection map: a key is the [id] of its record. *)
Definition key_inv (m : gmap Z SelectedMeta) : Prop :=
  map_Forall (λ k v, sm_id v = k) m.

(** The contract of [Math.random]: a value in [[0, 1)]. *)
Definition unit_interval (random : nat → Q) : Prop :=
  ∀ i, (0 <= random i)%Q ∧ (random i < 1)%Q.

(** ** Start-up: reading the persisted selection, lines 55-62 *)

(** A value that [JSON.parse] can return. A number keeps its source text;
    a string, and the name of a member, is decoded. *)
#[warnings="-register-all"]
Inductive JSValue :=
| JNull
| JBool (b : bool)
| JNumber (lexeme : string)
| JString (text : string)
| JArray (items : list JSValue)
| JObject (members : list (string * JSValue)).

Definition code (c : ascii) : Z := Z.of_N (N_of_ascii c).

Definition is_ws (c : ascii) : bool :=
  (code c =? 32) || (code c =? 9) || (code c =? 10) || (code c =? 13).

Definition is_digit (c : ascii) : bool :=
  (48 <=? code c) && (code c <=? 57).

Definition is_hex (c : ascii) : bool :=
  is_digit c || ((65 <=? code c) && (code c <=? 70))
  || ((97 <=? code c) && (code c <=? 102)).

(** The character after a backslash in a string other than [u]:
    quote, backslash, slash, b, f, n, r, t. *)
Definition is_simple_escape (c : ascii) : bool :=
  (code c =? 34) || (code c =? 92) || (code c =? 47) || (code c =? 98)
  || (code c =? 102) || (code c =? 110) || (code c =? 114)
  || (code c =? 116).

Fixpoint skip_ws (s : list ascii) : list ascii :=
  match s with
  | c :: r => if is_ws c then skip_ws r else s
  | [] => []
  end.

Fixpoint span_digits (s : list ascii) : list ascii * list ascii :=
  match s with
  | c :: r =>
      if is_digit c then let p := span_digits r in (c :: p.1, p.2)
      else ([], s)
  | [] => ([], [])
  end.

Fixpoint strip_prefix (p s : list ascii) : option (list ascii) :=
  match p, s with
  | [], _ => Some s
  | a :: p', b :: s' => if Ascii.eqb a b then strip_prefix p' s' else None
  | _ :: _, [] => None
  end.

(** The integer part: [0], or a non-zero digit and more digits. *)
Definition lex_int (s : list ascii) : option (list ascii * list ascii) :=
  match s with
  | c :: r =>
      if code c =? 48 then Some ([c], r)
      else if is_digit c then
        let p := span_digits r in Some (c :: p.1, p.2)
      else None
  | [] => None
  end.

(** An optional fraction: a dot and at least one digit. *)
Definition lex_frac (s : list ascii) : option (list ascii * list ascii) :=
  match s with
  | c :: r =>
      if code c =? 46 then
        match span_digits r with
        | ([], _) => None
        | (ds, r') => Some (c :: ds, r')
        end
      else Some ([], s)
  | [] => Some ([], [])
  end.

(** An optional exponent: [e] or [E], an optional sign, at least one
    digit. *)
Definition lex_exp (s : list ascii) : option (list ascii * list ascii) :=
  match s with
  | c :: r =>
      if (code c =? 101) || (code c =? 69) then
        let sr :=
          match r with
          | d :: r' =>
              if (code d =? 43) || (code d =? 45) then ([d], r') else ([], r)
          | [] => ([], [])
          end in
        match span_digits sr.2 with
        | ([], _) => None
        | (ds, r2) => Some (c :: sr.1 ++ ds, r2)
        end
      else Some ([], s)
  | [] => Some ([], [])
  end.

Definition lex_number (s : list ascii) : option (list ascii * list ascii) :=
  let nr :=
    match s with
    | c :: r => if code c =? 45 then ([c], r) else ([], s)
    | [] => ([], [])
    end in
  i ← lex_int nr.2;
  f ← lex_frac i.2;
  e ← lex_exp f.2;
  Some (nr.1 ++ i.1 ++ f.1 ++ e.1, e.2).

(** The value of a hexadecimal digit, and of four of them. *)
Definition hex_value (c : ascii) : Z :=
  let n := code c in
  if n <=? 57 then n - 48 else if n <=? 70 then n - 55 else n - 87.

Definition hex4 (h1 h2 h3 h4 : ascii) : Z :=
  ((hex_value h1 * 16 + hex_value h2) * 16 + hex_value h3) * 16
  + hex_value h4.

Definition byte (n : Z) : ascii := ascii_of_N (Z.to_N n).

(** A string is held as the bytes of its UTF-8 form: a code point below
    128 is one byte. A surrogate that stands alone is written like any
    other code unit of its range. *)
Definition utf8 (n : Z) : list ascii :=
  if n <? 128 then [byte n]
  else if n <? 2048 then [byte (192 + n / 64); byte (128 + n mod 64)]
  else if n <? 65536 then
    [byte (224 + n / 4096); byte (128 + (n / 64) mod 64);
     byte (128 + n mod 64)]
  else
    [byte (240 + n / 262144); byte (128 + (n / 4096) mod 64);
     byte (128 + (n / 64) mod 64); byte (128 + n mod 64)].

(** The character that a simple escape stands for. *)
Definition unescape (e : ascii) : ascii :=
  let n := code e in
  if n =? 98 then byte 8
  else if n =? 102 then byte 12
  else if n =? 110 then byte 10
  else if n =? 114 then byte 13
  else if n =? 116 then byte 9
  else e.

Definition is_high_surrogate (n : Z) : bool := (55296 <=? n) && (n <? 56320).
Definition is_low_surrogate (n : Z) : bool := (56320 <=? n) && (n <? 57344).

(** The inside of a string, after the opening quote, up to and including
    the closing one: the decoded characters and the rest of the text.
    Control characters are refused, and an escape is one of the simple ones
    or [u] with four hexadecimal digits; a high surrogate followed by an
    escaped low one is one code point. *)
Fixpoint lex_string_body (s : list ascii) : option (list ascii * list ascii) :=
  match s with
  | [] => None
  | c :: r =>
      if code c =? 34 then Some ([], r)
      else if code c =? 92 then
        match r with
        | e :: r' =>
            if is_simple_escape e then
              b ← lex_string_body r'; Some (unescape e :: b.1, b.2)
            else if code e =? 117 then
              match r' with
              | h1 :: h2 :: h3 :: h4 :: r'' =>
                  if is_hex h1 && is_hex h2 && is_hex h3 && is_hex h4 then
                    let n := hex4 h1 h2 h3 h4 in
                    if is_high_surrogate n then
                      match r'' with
                      | b2 :: u2 :: l1 :: l2 :: l3 :: l4 :: r3 =>
                          if (code b2 =? 92) && (code u2 =? 117)
                             && is_hex l1 && is_hex l2 && is_hex l3
                             && is_hex l4
                             && is_low_surrogate (hex4 l1 l2 l3 l4)
                          then
                            b ← lex_string_body r3;
                            Some (utf8 (65536 + (n - 55296) * 1024
                                        + (hex4 l1 l2 l3 l4 - 56320))
                                  ++ b.1, b.2)
                          else
                            b ← lex_string_body r'';
                            Some (utf8 n ++ b.1, b.2)
                      | _ =>
                          b ← lex_string_body r''; Some (utf8 n ++ b.1, b.2)
                      end
                    else b ← lex_string_body r''; Some (utf8 n ++ b.1, b.2)
                  else None
              | _ => None
              end
            else None
        | [] => None
        end
      else if code c <? 32 then None
      else b ← lex_string_body r; Some (c :: b.1, b.2)
  end.

(** The JSON grammar by recursive descent. The fuel bounds the number of
    nested calls, and [JSON_parse] gives more than any text can use. *)
Fixpoint parse_value (fuel : nat) (s : list ascii) {struct fuel}
    : option (JSValue * list ascii) :=
  match fuel with
  | O => None
  | S fuel' =>
      match skip_ws s with
      | [] => None
      | c :: r =>
          if code c =? 123 then
            match skip_ws r with
            | d :: r' =>
                if code d =? 125 then Some (JObject [], r')
                else ms ← parse_members fuel' (d :: r');
                     Some (JObject ms.1, ms.2)
            | [] => None
            end
          else if code c =? 91 then
            match skip_ws r with
            | d :: r' =>
                if code d =? 93 then Some (JArray [], r')
                else vs ← parse_elements fuel' (d :: r');
                     Some (JArray vs.1, vs.2)
            | [] => None
            end
          else if code c =? 34 then
            b ← lex_string_body r;
            Some (JString (string_of_list_ascii b.1), b.2)
          else
            match strip_prefix (list_ascii_of_string "null") (c :: r) with
            | Some rest => Some (JNull, rest)
            | None =>
            match strip_prefix (list_ascii_of_string "true") (c :: r) with
            | Some rest => Some (JBool true, rest)
            | None =>
            match strip_prefix (list_ascii_of_string "false") (c :: r) with
            | Some rest => Some (JBool false, rest)
            | None =>
                n ← lex_number (c :: r);
                Some (JNumber (string_of_list_ascii n.1), n.2)
            end end end
      end
  end
with parse_elements (fuel : nat) (s : list ascii) {struct fuel}
    : option (list JSValue * list ascii) :=
  match fuel with
  | O => None
  | S fuel' =>
      v ← parse_value fuel' s;
      match skip_ws v.2 with
      | c :: r =>
          if code c =? 44 then
            vs ← parse_elements fuel' r; Some (v.1 :: vs.1, vs.2)
          else if code c =? 93 then Some ([v.1], r)
          else None
      | [] => None
      end
  end
with parse_members (fuel : nat) (s : list ascii) {struct fuel}
    : option (list (string * JSValue) * list ascii) :=
  match fuel with
  | O => None
  | S fuel' =>
      match skip_ws s with
      | q :: r =>
          if code q =? 34 then
            k ← lex_string_body r;
            match skip_ws k.2 with
            | col :: r2 =>
                if code col =? 58 then
                  v ← parse_value fuel' r2;
                  match skip_ws v.2 with
                  | c :: r3 =>
                      if code c =? 44 then
                        ms ← parse_members fuel' r3;
                        Some ((string_of_list_ascii k.1, v.1) :: ms.1, ms.2)
                      else if code c =? 125 then
                        Some ([(string_of_list_ascii k.1, v.1)], r3)
                      else None
                  | [] => None
                  end
                else None
            | [] => None
            end
          else None
      | [] => None
      end
  end.

(** [JSON.parse(raw)]: [None] stands for the SyntaxError it throws. One
    value, with nothing but white space after it. *)
Definition JSON_parse (raw : string) : option JSValue :=
  let s := list_ascii_of_string raw in
  match parse_value (2 * length s + 2) s with
  | Some (v, rest) =>
      match skip_ws rest with
      | [] => Some v
      | _ :: _ => None
      end
  | None => None
  end.

(** What [localStorage.getItem(STORAGE_KEY)] does: it throws (storage
    denied), or returns [null] or the stored string. *)
Inductive StorageRead :=
| ReadThrows
| ReadValue (raw : option string).

(** The initializer of [selectedMap]: [raw ? JSON.parse(raw) : {}] inside
    [try], [{}] in [catch]. The empty string is falsy. *)
Definition initSelectedMap (read : StorageRead) : JSValue :=
  match read with
  | ReadThrows => JObject []
  | ReadValue None => JObject []
  | ReadValue (Some raw) =>
      if String.eqb raw EmptyString then JObject []
      else match JSON_parse raw with
           | Some v => v
           | None => JObject []
           end
  end.

(** [obj[key]] on a parsed value: the last member of that name, as
    [JSON.parse] keeps it; [undefined] on what is not an object. *)
Fixpoint member_last (key : string) (ms : list (string * JSValue))
    : option JSValue :=
  match ms with
  | [] => None
  | (k, v) :: ms' =>
      match member_last key ms' with
      | Some v' => Some v'
      | None => if String.eqb k key then Some v else None
      end
  end.

Definition js_get (v : JSValue) (key : string) : option JSValue :=
  match v with
  | JObject ms => member_last key ms
  | _ => None
  end.

(** The members an object ends up with: of two members of one name the
    later one stays. *)
Fixpoint live_members (ms : list (string * JSValue))
    : list (string * JSValue) :=
  match ms with
  | [] => []
  | (k, v) :: ms' =>
      if existsb (λ kv, String.eqb kv.1 k) ms' then live_members ms'
      else (k, v) :: live_members ms'
  end.

(** Whether React refuses a value as a child: an object is refused, and an
    array when one of its elements is; strings and numbers are rendered,
    booleans and [null] are skipped. *)
Fixpoint invalid_child (v : JSValue) : bool :=
  match v with
  | JObject _ => true
  | JArray items => existsb invalid_child items
  | _ => false
  end.

(** Whether turning a value into a string throws: it does for an object
    with a member [toString] of its own, which is never a function, and
    for an array that holds such an object. *)
Fixpoint string_coercion_throws (v : JSValue) : bool :=
  match v with
  | JObject fs =>
      match member_last "toString" fs with
      | Some _ => true
      | None => false
      end
  | JArray items => existsb string_coercion_throws items
  | _ => false
  end.

(** One entry of the side panel, lines 379-387, for a value [m] of
    [Object.values(selectedMap)]: reading [m.id] throws on [null]; the key
    [m.id] is turned into a string; the children are
    [m.title ?? `#${m.id}`] and [m.artist_display]. On what is not an
    object the three properties are [undefined]. *)
Definition entry_throws (m : JSValue) : bool :=
  match m with
  | JNull => true
  | JObject fs =>
      match member_last "id" fs with
      | Some i => string_coercion_throws i
      | None => false
      end
      || match member_last "title" fs with
         | Some JNull => false
         | Some t => invalid_child t
         | None => false
         end
      || match member_last "artist_display" fs with
         | Some a => invalid_child a
         | None => false
         end
  | _ => false
  end.

(** Whether the first render throws on the initial [selectedMap], lines
    372-390: [Object.keys] throws on [null]; on an object or an array the
    side panel renders one entry per value; a string has characters as
    values, a number or a boolean none, and they render without a throw.
    The table has no row yet, so [isSelected] is not called. *)
Definition render_throws (selectedMap0 : JSValue) : bool :=
  match selectedMap0 with
  | JNull => true
  | JObject ms => existsb (λ kv, entry_throws kv.2) (live_members ms)
  | JArray items => existsb entry_throws items
  | _ => false
  end.

(** A double quote, and a persisted blob as the component writes it:
    one selected record under its key. *)
Definition dq : string := String (ascii_of_nat 34) EmptyString.

Definition demo_blob : string :=
  "{" +:+ dq +:+ "27992" +:+ dq +:+ ":{" +:+ dq +:+ "id" +:+ dq
  +:+ ":27992," +:+ dq +:+ "title" +:+ dq +:+ ":" +:+ dq +:+ "A Sunday"
  +:+ dq +:+ "}}".

(** ** The rest of the component: thumbnails, the table, the side panel *)

(** [iiifImageUrl], lines 42-46: [null], [undefined] and the empty string
    are falsy; the template prints [width] in decimal. *)
Definition iiifImageUrl (imageId : option string) (width : Z)
    : option string :=
  match imageId with
  | None => None
  | Some s =>
      if String.eqb s EmptyString then None
      else Some ("https://www.artic.edu/iiif/2/" +:+ s +:+ "/full/"
                 +:+ pretty width +:+ ",/0/default.jpg")
  end.

(** The source of the image in [thumbnailBody], line 229; [None] is the
    "no image" box. *)
Definition thumbnailUrl (row : Artwork) : option string :=
  iiifImageUrl (art_image_id row) 160.

(** [isSelected], line 116: [!!selectedMap[row.id]]; a stored record is an
    object, hence truthy. *)
Definition isSelected (st : State) (row : Artwork) : bool :=
  match selectedMap st !! art_id row with
  | Some _ => true
  | None => false
  end.

Definition setRows (r : list Artwork) (st : State) : State :=
  mkState r (page st) (totalRecords st) (selectedMap st)
          (showClearDialog st) (overlayVisible st) (selectNumber st)
          (strategy st) (addToExisting st) (selectingLoading st).

Definition setPage (p : Z) (st : State) : State :=
  mkState (rows st) p (totalRecords st) (selectedMap st)
          (showClearDialog st) (overlayVisible st) (selectNumber st)
          (strategy st) (addToExisting st) (selectingLoading st).

Definition setTotalRecords (t : Z) (st : State) : State :=
  mkState (rows st) (page st) t (selectedMap st)
          (showClearDialog st) (overlayVisible st) (selectNumber st)
          (strategy st) (addToExisting st) (selectingLoading st).

(** [onPageChange], lines 139-141: the event carries a zero-based page. *)
Definition onPageChange (event_page : Z) (st : State) : State :=
  setPage (event_page + 1) st.

(** [first={(page - 1) * rowsPerPage}] of the paginator, line 364. *)
Definition paginatorFirst (st : State) : Z := (page st - 1) * rowsPerPage.

(** [confirmClearSelections], lines 143-145, and the [onHide] and Cancel
    handlers of the dialog, lines 396 and 404. *)
Definition confirmClearSelections (st : State) : State :=
  setShowClearDialog true st.

Definition cancelClearDialog (st : State) : State :=
  setShowClearDialog false st.

(** What [axios.get] does for the page effect, which also reads
    [pagination?.total]: the rejected case covers a body without [data]. *)
Inductive PageResponse :=
| PageRejected
| PageResolved (data : option (list Artwork)) (total : option Z).

(** The table state of the page effect: the component state and the
    [loading] flag. *)
Record Table := mkTable {
  view : State;
  loading : bool
}.

(** [fetchPage] up to its [await], lines 83-86. *)
Definition fetchPage_begin (t : Table) : Table :=
  mkTable (view t) true.

(** [fetchPage] once the request has settled, lines 87-98: [cancelled] is
    the flag of the effect at that moment; a cancelled run returns at once
    and its [finally] does nothing. *)
Definition fetchPage_settle (cancelled : bool) (resp : PageResponse)
    (t : Table) : Table :=
  if cancelled then t
  else
    match resp with
    | PageResolved data total =>
        mkTable (setTotalRecords (default 0 total)
                   (setRows (default [] data) (view t))) false
    | PageRejected =>
        mkTable (setTotalRecords 0 (setRows [] (view t))) false
    end.

(** [Object.keys(selectedMap).length], line 372. *)
Definition selectedCount (st : State) : nat := size (selectedMap st).

(** The button of a side-panel entry, line 384: [deselectId(m.id)] for a
    record [m] of [Object.values(selectedMap)]. *)
Definition panelDeselect (m : SelectedMeta) (st : State) : State :=
  deselectId (sm_id m) st.

(** The title of a side-panel entry, line 381: the title or [#] and the
    id. *)
Definition panelTitle (m : SelectedMeta) : string :=
  match sm_title m with
  | Some t => t
  | None => "#" +:+ pretty (sm_id m)
  end.

(** [max={Math.max(rows.length, totalRecords) || 999}] of the number input,
    line 280; its [min] is 1. *)
Definition inputMax (st : State) : Z :=
  let m := Z.max (Z.of_nat (length (rows st))) (totalRecords st) in
  if m =? 0 then 999 else m.

(** ** Persisting the selection, lines 107-114 *)

Definition dq_char : ascii := ascii_of_nat 34.

(** A lower-case hexadecimal digit. *)
Definition hex_digit (n : Z) : ascii :=
  ascii_of_N (Z.to_N (if n <? 10 then 48 + n else 87 + n)).

(** How [JSON.stringify] writes one character of a string: the quote and
    the backslash behind a backslash, the control characters by their short
    escape or as [u00XX], every other character as it is. *)
Definition json_escape_char (c : ascii) : list ascii :=
  let n := code c in
  if n =? 34 then ["\"%char; c]
  else if n =? 92 then ["\"%char; c]
  else if n =? 8 then ["\"%char; "b"%char]
  else if n =? 12 then ["\"%char; "f"%char]
  else if n =? 10 then ["\"%char; "n"%char]
  else if n =? 13 then ["\"%char; "r"%char]
  else if n =? 9 then ["\"%char; "t"%char]
  else if n <? 32 then
    ["\"%char; "u"%char; "0"%char; "0"%char;
     hex_digit (n / 16); hex_digit (n mod 16)]
  else [c].

Definition json_escape (s : string) : list ascii :=
  flat_map json_escape_char (list_ascii_of_string s).

Definition json_quote (s : string) : list ascii :=
  dq_char :: json_escape s ++ [dq_char].

(** A property that is [undefined] is left out. *)
Definition json_optional_field (name : string) (v : option string)
    : list ascii :=
  match v with
  | Some t => ","%char :: json_quote name ++ ":"%char :: json_quote t
  | None => []
  end.

(** One stored record, [{ id, title, artist_display }] in that order; the
    id is an integer and is written in decimal. *)
Definition stringify_record (r : SelectedMeta) : list ascii :=
  "{"%char :: json_quote "id"
  ++ ":"%char :: list_ascii_of_string (pretty (sm_id r))
  ++ json_optional_field "title" (sm_title r)
  ++ json_optional_field "artist_display" (sm_artist_display r)
  ++ ["}"%char].

Definition stringify_entry (e : Z * SelectedMeta) : list ascii :=
  json_quote (pretty e.1) ++ ":"%char :: stringify_record e.2.

Fixpoint join_entries (l : list (Z * SelectedMeta)) : list ascii :=
  match l with
  | [] => []
  | e :: l' =>
      match l' with
      | [] => stringify_entry e
      | _ :: _ => stringify_entry e ++ ","%char :: join_entries l'
      end
  end.

(** [JSON.stringify(selectedMap)] for the properties of the object in the
    order [l] in which the engine enumerates them. *)
Definition JSON_stringify (l : list (Z * SelectedMeta)) : string :=
  string_of_list_ascii ("{"%char :: join_entries l ++ ["}"%char]).

(** The effect of lines 107-114 on the storage slot: [setItem] may throw
    (quota, storage denied), which is caught and leaves the slot as it
    was. *)
Definition persistSelection (setItem_throws : bool)
    (l : list (Z * SelectedMeta)) (slot : option string) : option string :=
  if setItem_throws then slot else Some (JSON_stringify l).

(** The value that [JSON.parse] builds for a stored record and for an
    entry. *)
Definition value_of_field (name : string) (v : option string)
    : list (string * JSValue) :=
  match v with
  | Some t => [(name, JString t)]
  | None => []
  end.

Definition value_of_record (r : SelectedMeta) : JSValue :=
  JObject (("id", JNumber (pretty (sm_id r)))
           :: value_of_field "title" (sm_title r)
           ++ value_of_field "artist_display" (sm_artist_display r)).

Definition value_of_entry (e : Z * SelectedMeta) : string * JSValue :=
  (pretty e.1, value_of_record e.2).

(** What may follow a number: the end of the text, or a character that is
    not a digit, a dot or an exponent mark. *)
Definition stops_number (rest : list ascii) : Prop :=
  match rest with
  | [] => True
  | c :: _ =>
      is_digit c = false ∧ code c ≠ 46 ∧ code c ≠ 101 ∧ code c ≠ 69
  end.

(** ** Sample data *)

Definition demo_art (i : Z) : Artwork :=
  mkArtwork i None None None None None.

Definition demo_server (p : Z) : Response :=
  if p =? 2 then Rejected
  else Resolved (Some (demo_art <$> seqZ ((p - 1) * 12) 12)).

Definition demo_random (k : nat) : Q := Z.of_nat (k mod 3) # 3.

(** Page 1 of a catalogue of ten records, all of them loaded. *)
Definition short_catalogue_state : State :=
  mkState (demo_art <$> seqZ 0 10) 1 10 ∅ false true (Some 5) first true
          false.

Definition demo_state (strat : Strategy) (n : Z) (add : bool) : State :=
  mkState (demo_art <$> seqZ 0 12) 1 60 {[ 100 := metaOf (demo_art 100) ]}
          false true (Some n) strat add false.

(** * Properties *)

(** ** The page window *)

Lemma ceil_div_least (a b q : Z) :
  0 < b → (ceil_div a b ≤ q ↔ a ≤ b * q).
Proof.
  intros Hb. unfold ceil_div. split; intros H.
  - assert (- q ≤ (- a) / b) as H1 by lia.
    pose proof (Z.mul_div_le (- a) b Hb). nia.
  - assert (- q ≤ (- a) / b); [|lia].
    apply Z.div_le_lower_bound; lia.
Qed.

Lemma ceil_div_upper (a b : Z) : 0 < b → a ≤ b * ceil_div a b.
Proof. intros Hb. by apply ceil_div_least. Qed.

Lemma ceil_div_shift (a b : Z) : 0 < b → ceil_div (a - b) b = ceil_div a b - 1.
Proof.
  intros Hb. unfold ceil_div.
  replace (- (a - b)) with (- a + 1 * b) by lia.
  rewrite Z.div_add by lia. lia.
Qed.

(** ** The accumulation loop *)

Section FetchingFacts.
Variable server : Z → Response.

Lemma buffer_after_0 combined p : buffer_after server combined p 0 = combined.
Proof. unfold buffer_after. simpl. by rewrite app_nil_r. Qed.

Lemma buffer_after_step combined p k :
  0 ≤ k →
  buffer_after server combined p (k + 1)
  = buffer_after server (combined ++ fetchPageData server p) (p + 1) k.
Proof.
  intros Hk. unfold buffer_after.
  rewrite (seqZ_cons p (k + 1)) by lia.
  replace (Z.pred (k + 1)) with k by lia.
  replace (Z.succ p) with (p + 1) by lia.
  rewrite fmap_cons. simpl. by rewrite <- app_assoc.
Qed.


Lemma fetch_loop_run n totalPages combined nextPage fetched :
  ∃ k, loop_run server n totalPages combined nextPage fetched
         (fetch_loop server n totalPages combined nextPage fetched) k.
Proof.
  funelim (fetch_loop server n totalPages combined nextPage fetched).
  - match goal with
    | IH : ∃ k, loop_run _ _ _ _ _ _ _ k |- _ =>
        destruct IH as [k [Ht Hr Hs He]]
    end.
    exists (k + 1). split.
    + lia.
    + rewrite Hr. rewrite buffer_after_step by lia.
      rewrite (seqZ_cons nextPage (k + 1)) by lia.
      replace (Z.pred (k + 1)) with k by lia.
      replace (Z.succ nextPage) with (nextPage + 1) by lia.
      rewrite <- app_assoc. simpl. f_equal. f_equal. lia.
    + intros j Hj. destruct (decide (j = 0)) as [->|Hne].
      * rewrite buffer_after_0. lia.
      * replace j with ((j - 1) + 1) by lia.
        rewrite buffer_after_step by lia. apply Hs. lia.
    + rewrite buffer_after_step by lia.
      destruct He as [He|He]; [by left | right; lia].
  - exists 0. split.
    + lia.
    + rewrite buffer_after_0. simpl. rewrite app_nil_r.
      f_equal. f_equal. lia.
    + intros j Hj. lia.
    + rewrite buffer_after_0. lia.
Qed.

End FetchingFacts.

(** ** The three strategies *)

Lemma at_index_Some {A} (arr : list A) (z : Z) :
  0 ≤ z < Z.of_nat (length arr) → is_Some (at_index arr (Some z)).
Proof.
  intros Hz. unfold at_index.
  destruct (Z.ltb_spec z 0); [lia|].
  apply lookup_lt_is_Some. lia.
Qed.

(** The walk of [every]: from [idx], with [indices] already pushed. *)
Lemma every_loop_walk (pickCount availableCount step : Z)
    (indices : list (option Z)) (idx : Z) :
  0 < step →
  every_loop pickCount availableCount step indices idx
  = indices ++
    ((λ k, Some (idx + k * step)) <$>
       seqZ 0 (Z.min (pickCount - Z.of_nat (length indices))
                     (ceil_div (availableCount - idx) step))).
Proof.
  intros Hstep.
  funelim (every_loop pickCount availableCount step indices idx).
  - match goal with
    | IH : 0 < _ → every_loop _ _ _ _ _ = _ |- _ => rewrite (IH Hstep)
    end.
    rewrite length_app. simpl.
    replace (availableCount - (idx + step))
      with ((availableCount - idx) - step) by lia.
    rewrite ceil_div_shift by lia.
    assert (1 ≤ ceil_div (availableCount - idx) step) as Hc.
    { destruct (Z.le_gt_cases (ceil_div (availableCount - idx) step) 0)
        as [Hle|]; [|lia].
      apply ceil_div_least in Hle; lia. }
    set (m := Z.min (pickCount - Z.of_nat (length indices))
                    (ceil_div (availableCount - idx) step)).
    replace (Z.min (pickCount - Z.of_nat (length indices + 1))
                   (ceil_div (availableCount - idx) step - 1))
      with (m - 1) by lia.
    rewrite (seqZ_cons 0 m) by lia.
    rewrite <- app_assoc. simpl. f_equal.
    f_equal; [f_equal; lia|].
    replace (Z.succ 0) with (1 + 0) by lia.
    rewrite <- (fmap_add_seqZ 1 0), <- list_fmap_compose.
    replace (Z.pred m) with (m - 1) by lia.
    apply list_fmap_ext. intros _ k _. simpl. f_equal. lia.
  - assert (Z.min (pickCount - Z.of_nat (length indices))
                  (ceil_div (availableCount - idx) step) ≤ 0) as Hm.
    { destruct (Z.le_gt_cases pickCount (Z.of_nat (length indices)));
        [lia|].
      assert (ceil_div (availableCount - idx) step ≤ 0); [|lia].
      apply ceil_div_least; lia. }
    rewrite seqZ_nil by lia. simpl. by rewrite app_nil_r.
Qed.

Section RandomFacts.
Variable random : nat → Q.
Hypothesis random_range : unit_interval random.

(** [Math.floor(Math.random() * len)] falls in [[0, len)]. *)
Lemma pick_in_pool (i : nat) (len : Z) :
  0 < len →
  0 ≤ Qfloor (random i * inject_Z len) < len.
Proof.
  intros Hlen. destruct (random_range i) as [H0 H1].
  assert (0 <= inject_Z len)%Q as Hl0.
  { unfold Qle. simpl. lia. }
  split.
  - change 0 with (Qfloor 0). apply Qfloor_resp_le.
    by apply Qmult_le_0_compat.
  - rewrite Zlt_Qlt.
    eapply Qle_lt_trans; [apply Qfloor_le|].
    apply Qlt_le_trans with (1 * inject_Z len)%Q.
    + apply Qmult_lt_compat_r; [|done]. unfold Qlt. simpl. lia.
    + rewrite Qmult_1_l. apply Qle_refl.
Qed.

Lemma splice1_in_range (pick : Z) (pool : list Z) :
  0 ≤ pick < Z.of_nat (length pool) →
  ∃ x, head (splice1 pick pool).1 = Some x
       ∧ pool ≡ₚ x :: (splice1 pick pool).2.
Proof.
  intros Hp. unfold splice1. simpl.
  destruct (Z.ltb_spec pick 0); [lia|].
  rewrite Z.min_l by lia.
  destruct (lookup_lt_is_Some_2 pool (Z.to_nat pick)) as [x Hx]; [lia|].
  exists x. split.
  - rewrite (drop_S _ _ _ Hx). done.
  - rewrite <- (take_drop_middle _ _ _ Hx) at 1.
    by rewrite Permutation_middle.
Qed.

(** After [j] turns of the [for] loop the pool and the drawn indices
    together are still the initial pool, and nothing drawn is
    [undefined]. *)
Lemma random_loop_inv (availableCount : Z) (j : nat) :
  Z.of_nat j ≤ availableCount →
  ∃ picked : list Z,
    (foldl (random_step random) (array_from_length availableCount, [])
           (seq 0 j)).2 = Some <$> picked
    ∧ (foldl (random_step random) (array_from_length availableCount, [])
             (seq 0 j)).1 ++ picked ≡ₚ seqZ 0 availableCount
    ∧ length picked = j.
Proof.
  induction j as [|j IH]; intros Hj.
  - exists []. simpl. by rewrite app_nil_r.
  - destruct IH as (picked & Hidx & Hperm & Hlen); [lia|].
    rewrite seq_S, foldl_app. cbn [foldl Nat.add].
    set (st := foldl (random_step random)
                     (array_from_length availableCount, []) (seq 0 j)) in *.
    assert (Z.of_nat (length st.1) = availableCount - Z.of_nat j) as Hpool.
    { apply Permutation_length in Hperm.
      rewrite length_app, length_seqZ in Hperm. lia. }
    unfold random_step at 1.
    destruct (splice1_in_range
                (Qfloor (random j * inject_Z (Z.of_nat (length st.1))))
                st.1) as (x & Hhead & Hp).
    { apply pick_in_pool. lia. }
    exists (picked ++ [x]). cbn [fst snd]. split; [|split].
    + rewrite Hidx, Hhead, fmap_app. done.
    + rewrite <- Hperm, app_assoc, <- Permutation_cons_append.
      rewrite app_comm_cons. apply Permutation_app_tail. by symmetry.
    + rewrite length_app. simpl. lia.
Qed.

End RandomFacts.

(** The draws of [random]: no [undefined], no repeat, all from the pool. *)
Lemma random_indices_distinct (random : nat → Q) (n availableCount : Z) :
  unit_interval random → 0 ≤ availableCount →
  ∃ picked : list Z,
    (random_loop random availableCount (Z.min n availableCount)).2
    = Some <$> picked
    ∧ length picked = Z.to_nat (Z.min n availableCount)
    ∧ NoDup picked
    ∧ Forall (λ i, 0 ≤ i < availableCount) picked.
Proof.
  intros Hr Ha. unfold random_loop.
  destruct (random_loop_inv random Hr availableCount
              (Z.to_nat (Z.min n availableCount)))
    as (picked & Hidx & Hperm & Hlen); [lia|].
  exists picked. split; [done|]. split; [done|].
  assert (NoDup (seqZ 0 availableCount)) as Hnd by apply NoDup_seqZ.
  rewrite <- Hperm in Hnd. apply NoDup_app in Hnd as (_ & _ & Hnd).
  split; [done|].
  apply Forall_forall. intros i Hi.
  assert (i ∈ seqZ 0 availableCount) as Hin.
  { rewrite <- Hperm. apply elem_of_app. by right. }
  apply elem_of_seqZ in Hin. lia.
Qed.

Lemma stepOf_positive (n : Z) : 0 < n → stepOf (Some n) = n.
Proof.
  intros Hn. unfold stepOf.
  destruct (Z.eqb_spec n 0); [lia|].
  destruct (Z.leb_spec 1 n); [done|lia].
Qed.

(** Whatever the strategy, an index that is produced is a number below the
    buffer length. *)
Lemma pick_indices_in_range (random : nat → Q) (strat : Strategy)
    (n availableCount : Z) :
  unit_interval random → 0 < n → 0 ≤ availableCount →
  Forall (λ i, ∃ z, i = Some z ∧ 0 ≤ z < availableCount)
         (pick_indices random strat (Some n) n availableCount).
Proof.
  intros Hr Hn Ha.
  assert (Forall (λ i, ∃ z, i = Some z ∧ 0 ≤ z < availableCount)
            (Some <$> array_from_length (Z.min n availableCount))) as Hfirst.
  { apply Forall_fmap, Forall_forall. intros z Hz.
    apply elem_of_seqZ in Hz. exists z. split; [done|lia]. }
  unfold pick_indices. destruct strat.
  - exact Hfirst.
  - destruct (random_indices_distinct random n availableCount Hr Ha)
      as (picked & -> & _ & _ & Hrange).
    apply Forall_fmap. eapply Forall_impl; [exact Hrange|].
    intros z Hz. by exists z.
  - rewrite stepOf_positive by done.
    destruct (Z.eqb_spec n 1); [exact Hfirst|].
    rewrite every_loop_walk by lia. simpl.
    apply Forall_fmap, Forall_forall. intros k Hk.
    apply elem_of_seqZ in Hk. exists (0 + k * n). split; [done|].
    assert (¬ ceil_div (availableCount - 0) n ≤ k) as Hc by lia.
    rewrite ceil_div_least in Hc by lia. nia.
Qed.

Lemma targetCount_Some (st : State) :
  0 < targetCount st → selectNumber st = Some (targetCount st).
Proof.
  unfold targetCount. destruct (selectNumber st); simpl; [done|lia].
Qed.

(** C1 (amended). With strategy [every], a stride [N > 1] and a buffer of at
    least [N] items, the indices are [0, N, 2N, ...], the [k]-th being
    [k * N], and there are [min(N, ceil(available / N))] of them: the walk
    also stops once the next multiple of [N] is past the buffer. *)
Theorem every_indices_are_multiples (server : Z → Response)
    (random : nat → Q) (st : State) (N : Z) :
  strategy st = every →
  selectNumber st = Some N →
  1 < N →
  N ≤ Z.of_nat (length (selection_buffer server st)) →
  selection_indices server random st
  = (λ k, Some (k * N)) <$>
      seqZ 0 (Z.min N (ceil_div (Z.of_nat (length (selection_buffer server st)))
                                N)).
Proof.
  intros Hs Hsel HN Hav. unfold selection_indices.
  assert (targetCount st = N) as Hn by (unfold targetCount; by rewrite Hsel).
  rewrite Hs, Hsel, Hn. unfold pick_indices.
  rewrite stepOf_positive by lia.
  destruct (Z.eqb_spec N 1); [lia|].
  rewrite every_loop_walk by lia.
  rewrite app_nil_l. cbn [length].
  rewrite (Z.min_l N) by lia. rewrite !Z.sub_0_r.
  apply list_fmap_ext. intros _ k _. done.
Qed.

Lemma every_indices_are_multiples_witness :
  selection_indices demo_server demo_random (demo_state every 3 true)
  = [Some 0; Some 3; Some 6].
Proof.
  rewrite (every_indices_are_multiples demo_server demo_random
             (demo_state every 3 true) 3).
  - reflexivity.
  - reflexivity.
  - reflexivity.
  - lia.
  - vm_compute. discriminate.
Defined.

(** C1 as stated fails: with [N = 3] and a buffer of five items the claim
    promises [min(3, 5) = 3] indices, the code picks two, [0] and [3]. *)
Lemma every_picks_fewer_than_target :
  let st := mkState (demo_art <$> seqZ 0 5) 1 5 ∅ false true
                    (Some 3) every true false in
  strategy st = every
  ∧ selectNumber st = Some 3
  ∧ 3 ≤ Z.of_nat (length (selection_buffer demo_server st))
  ∧ Z.to_nat (Z.min 3 (Z.of_nat (length (selection_buffer demo_server st))))
    = 3%nat
  ∧ selection_indices demo_server demo_random st = [Some 0; Some 3]
  ∧ length (selection_indices demo_server demo_random st) ≠ 3%nat.
Proof.
  vm_compute. repeat split; try discriminate.
Qed.

(** C3. With strategy [random], a positive target count, any buffer and any
    outcome of the draws of [Math.random] in [[0, 1)], the index list has
    exactly [min(N, available)] elements, none of them [undefined], all
    distinct, each in [[0, available)]. *)
Theorem random_indices_sample (server : Z → Response) (random : nat → Q)
    (st : State) :
  unit_interval random →
  strategy st = random_ →
  0 < targetCount st →
  ∃ picked : list Z,
    selection_indices server random st = Some <$> picked
    ∧ length picked
      = Z.to_nat (Z.min (targetCount st)
                        (Z.of_nat (length (selection_buffer server st))))
    ∧ NoDup picked
    ∧ Forall (λ i, 0 ≤ i < Z.of_nat (length (selection_buffer server st)))
             picked.
Proof.
  intros Hr Hs Hn. unfold selection_indices. rewrite Hs.
  apply random_indices_distinct; [done|lia].
Qed.

Lemma demo_random_unit_interval : unit_interval demo_random.
Proof.
  intros i. unfold demo_random, Qle, Qlt. simpl.
  pose proof (Nat.mod_upper_bound i 3). lia.
Defined.

Lemma random_indices_sample_witness :
  ∃ picked : list Z,
    selection_indices demo_server demo_random (demo_state random_ 14 true)
    = Some <$> picked
    ∧ length picked = 14%nat
    ∧ NoDup picked
    ∧ Forall (λ i, 0 ≤ i < 24) picked.
Proof.
  apply (random_indices_sample demo_server demo_random
           (demo_state random_ 14 true)).
  - exact demo_random_unit_interval.
  - reflexivity.
  - reflexivity.
Defined.

(** C10. For a positive target count and draws of [Math.random] in
    [[0, 1)], every index produced by any of the three strategies is a
    number in [[0, availableCount)], so its buffer lookup is a defined item
    and the guard [if (item)] never skips: as many items are written as
    there are indices. *)
Theorem indices_always_defined (server : Z → Response) (random : nat → Q)
    (st : State) :
  unit_interval random →
  0 < targetCount st →
  Forall (λ i, (∃ z, i = Some z
                     ∧ 0 ≤ z < Z.of_nat (length (selection_buffer server st)))
               ∧ is_Some (at_index (selection_buffer server st) i))
         (selection_indices server random st)
  ∧ length (picked_items (selection_buffer server st)
                         (selection_indices server random st))
    = length (selection_indices server random st).
Proof.
  intros Hr Hn.
  assert (Forall (λ i, (∃ z, i = Some z
                     ∧ 0 ≤ z < Z.of_nat (length (selection_buffer server st)))
               ∧ is_Some (at_index (selection_buffer server st) i))
         (selection_indices server random st)) as Hall.
  { unfold selection_indices. rewrite (targetCount_Some st Hn) at 1.
    eapply Forall_impl.
    - apply pick_indices_in_range; [done|done|lia].
    - intros i (z & -> & Hz). split; [by exists z|].
      by apply at_index_Some. }
  split; [exact Hall|].
  unfold picked_items.
  induction Hall as [|i l [_ [item Hitem]] _ IH]; [done|].
  simpl. rewrite Hitem. simpl. f_equal. exact IH.
Qed.

Lemma indices_always_defined_witness :
  Forall (λ i, (∃ z, i = Some z ∧ 0 ≤ z < 12)
               ∧ is_Some (at_index
                            (selection_buffer demo_server
                               (demo_state every 5 false)) i))
         (selection_indices demo_server demo_random (demo_state every 5 false))
  ∧ length (picked_items
              (selection_buffer demo_server (demo_state every 5 false))
              (selection_indices demo_server demo_random
                 (demo_state every 5 false)))
    = length (selection_indices demo_server demo_random
                (demo_state every 5 false)).
Proof.
  apply (indices_always_defined demo_server demo_random
           (demo_state every 5 false)).
  - exact demo_random_unit_interval.
  - reflexivity.
Defined.

(** ** The whole of [applyAutoSelect] *)

Section BulkSelectorFacts.
Variable server : Z → Response.
Variable random : nat → Q.

Lemma applyAutoSelect_no_op (st : State) :
  targetCount st ≤ 0 →
  applyAutoSelect server random st = (hideOverlay st, []).
Proof.
  intros Hn. unfold applyAutoSelect.
  destruct (Z.leb_spec (targetCount st) 0); [done|lia].
Qed.

Lemma applyAutoSelect_run (st : State) :
  0 < targetCount st →
  applyAutoSelect server random st
  = (setSelectingLoading false
       (hideOverlay
          (setSelectedMap
             (write_picks (selection_buffer server st)
                (if addToExisting st then selectedMap st else ∅)
                (selection_indices server random st))
             (setSelectingLoading true st))),
     (gather server (targetCount st) st).2).
Proof.
  intros Hn. unfold applyAutoSelect.
  destruct (Z.leb_spec (targetCount st) 0); [lia|done].
Qed.

(** The loop of [applyAutoSelect] starts from the rows of the current
    page, at the page after the current one, with nothing fetched. *)
Lemma gather_run (st : State) :
  ∃ k, 0 ≤ k ≤ Z.max 0 (totalPagesOf (totalRecords st) - page st)
    ∧ selection_buffer server st
      = buffer_after server (rows st) (page st + 1) k
    ∧ (gather server (targetCount st) st).2 = seqZ (page st + 1) k
    ∧ (∀ j, 0 ≤ j < k →
         Z.of_nat (length (buffer_after server (rows st) (page st + 1) j))
         < targetCount st)
    ∧ (targetCount st
       ≤ Z.of_nat (length (buffer_after server (rows st) (page st + 1) k))
       ∨ totalPagesOf (totalRecords st) < page st + 1 + k).
Proof.
  destruct (fetch_loop_run server (targetCount st)
              (totalPagesOf (totalRecords st)) (rows st) (page st + 1) [])
    as [k [Ht Hr Hs He]].
  exists k. unfold selection_buffer, gather. cbn [fst snd].
  rewrite Hr. cbn [fst snd]. repeat split; try done; lia.
Qed.

End BulkSelectorFacts.

(** ** Reading and writing the picks *)

Lemma lookups_of_prefix {A} (arr : list A) (k : nat) :
  (k ≤ length arr)%nat →
  omap (λ i, arr !! i) (seq 0 k) = take k arr.
Proof.
  induction k as [|k IH]; intros Hk; [done|].
  destruct (lookup_lt_is_Some_2 arr k) as [x Hx]; [lia|].
  rewrite seq_S, omap_app, IH by lia. simpl.
  rewrite Hx. simpl. by rewrite (take_S_r _ _ _ Hx).
Qed.

Lemma picked_items_first (combined : list Artwork) (m : Z) :
  m ≤ Z.of_nat (length combined) →
  picked_items combined (Some <$> array_from_length m)
  = take (Z.to_nat m) combined.
Proof.
  intros Hm. unfold picked_items, array_from_length, seqZ.
  rewrite <- (lookups_of_prefix combined (Z.to_nat m)) by lia.
  rewrite <- !list_fmap_compose.
  apply list_omap_ext, Forall2_fmap_l, Forall_Forall2_diag, Forall_forall.
  intros i _. unfold at_index. simpl.
  destruct (Z.ltb_spec (Z.of_nat i + 0) 0); [lia|].
  by replace (Z.to_nat (Z.of_nat i + 0)) with i by lia.
Qed.

Lemma write_picks_items (combined : list Artwork) (indices : list (option Z))
    (base : gmap Z SelectedMeta) :
  write_picks combined base indices
  = foldl (λ b item, <[art_id item := metaOf item]> b) base
          (picked_items combined indices).
Proof.
  unfold write_picks, picked_items. revert base.
  induction indices as [|i l IH]; intros base; [done|].
  simpl. rewrite IH. unfold write_pick.
  by destruct (at_index combined i).
Qed.

Lemma write_pick_union (combined : list Artwork) (base : gmap Z SelectedMeta)
    (i : option Z) :
  write_pick combined base i = write_pick combined ∅ i ∪ base.
Proof.
  unfold write_pick. destruct (at_index combined i) as [item|].
  - by rewrite <- insert_union_l, (left_id_L ∅ (∪)).
  - by rewrite (left_id_L ∅ (∪)).
Qed.

(** Writing onto [base] is writing onto [{}] and laying the result over
    [base]. *)
Lemma write_picks_union (combined : list Artwork)
    (indices : list (option Z)) (base : gmap Z SelectedMeta) :
  write_picks combined base indices
  = write_picks combined ∅ indices ∪ base.
Proof.
  unfold write_picks. revert base.
  induction indices as [|i l IH]; intros base.
  - simpl. by rewrite (left_id_L ∅ (∪)).
  - simpl. rewrite (IH (write_pick combined base i)).
    rewrite (IH (write_pick combined ∅ i)).
    rewrite (write_pick_union combined base i).
    by rewrite (assoc_L (∪)).
Qed.

Lemma write_picks_key_inv (combined : list Artwork)
    (indices : list (option Z)) (base : gmap Z SelectedMeta) :
  key_inv base → key_inv (write_picks combined base indices).
Proof.
  unfold write_picks. revert base.
  induction indices as [|i l IH]; intros base Hb; [done|].
  simpl. apply IH. unfold write_pick.
  destruct (at_index combined i) as [item|]; [|done].
  by apply map_Forall_insert_2.
Qed.

(** ** Claims about the whole operation *)

Lemma selectedMap_written (m : gmap Z SelectedMeta) (b : bool) (st : State) :
  selectedMap (setSelectingLoading b (hideOverlay (setSelectedMap m st))) = m.
Proof. done. Qed.

(** C2. With strategy [first] and a positive target count, for any pages the
    server returns, the identifiers that are picked are those of the first
    [min(N, available)] items of the buffer, in order; these items are what
    is written into the map; and the buffer is the rows of the current page
    followed by the items of the pages fetched after it, in fetch order. *)
Theorem first_picks_buffer_prefix (server : Z → Response) (random : nat → Q)
    (st : State) :
  strategy st = first →
  0 < targetCount st →
  let combined := selection_buffer server st in
  let pickCount := Z.min (targetCount st) (Z.of_nat (length combined)) in
  art_id <$> picked_items combined (selection_indices server random st)
  = art_id <$> take (Z.to_nat pickCount) combined
  ∧ selectedMap (applyAutoSelect server random st).1
    = foldl (λ b item, <[art_id item := metaOf item]> b)
            (if addToExisting st then selectedMap st else ∅)
            (take (Z.to_nat pickCount) combined)
  ∧ ∃ k, 0 ≤ k
      ∧ (applyAutoSelect server random st).2 = seqZ (page st + 1) k
      ∧ combined
        = rows st ++ concat (fetchPageData server <$> seqZ (page st + 1) k).
Proof.
  intros Hs Hn combined pickCount. subst combined pickCount.
  assert (picked_items (selection_buffer server st)
            (selection_indices server random st)
          = take (Z.to_nat (Z.min (targetCount st)
                    (Z.of_nat (length (selection_buffer server st)))))
                 (selection_buffer server st)) as Hpick.
  { unfold selection_indices, pick_indices. rewrite Hs.
    by rewrite picked_items_first by lia. }
  split; [by rewrite Hpick|]. split.
  - rewrite applyAutoSelect_run by done. cbn [fst].
    by rewrite selectedMap_written, write_picks_items, Hpick.
  - destruct (gather_run server st) as (k & Ht & Hbuf & Hf & _).
    exists k. rewrite applyAutoSelect_run by done. cbn [snd].
    split; [lia|]. by split.
Qed.

Lemma first_picks_buffer_prefix_witness :
  let st := demo_state first 14 false in
  art_id <$> picked_items (selection_buffer demo_server st)
                          (selection_indices demo_server demo_random st)
  = [0; 1; 2; 3; 4; 5; 6; 7; 8; 9; 10; 11; 24; 25]
  ∧ selectedMap (applyAutoSelect demo_server demo_random st).1
    = foldl (λ b item, <[art_id item := metaOf item]> b) ∅
            (take 14 (selection_buffer demo_server st))
  ∧ ∃ k, 0 ≤ k
      ∧ (applyAutoSelect demo_server demo_random st).2 = seqZ 2 k
      ∧ selection_buffer demo_server st
        = (demo_art <$> seqZ 0 12)
          ++ concat (fetchPageData demo_server <$> seqZ 2 k).
Proof.
  apply (first_picks_buffer_prefix demo_server demo_random
           (demo_state first 14 false)); reflexivity.
Defined.

(** What [forEach] writes onto [base] is the picked entries laid over
    [base]. *)
Lemma write_picks_entries (combined : list Artwork)
    (indices : list (option Z)) (base : gmap Z SelectedMeta) :
  write_picks combined base indices
  = picked_entries combined indices ∪ base.
Proof.
  rewrite write_picks_items. unfold picked_entries.
  induction (picked_items combined indices) as [|item items IH]
    using rev_ind.
  - simpl. by rewrite (left_id_L ∅ (∪)).
  - rewrite foldl_app, fmap_app, reverse_app. simpl.
    by rewrite IH, insert_union_l.
Qed.

(** C4. For every prior map [M] and the set [S] of newly picked entries
    (each picked id with the snapshot of the item picked for it), the map
    after bulk selection is [S] itself when [addToExisting] is false, and
    with [addToExisting] true it maps [k] to [S[k]] when [k] is in [S] and
    to [M[k]] otherwise. *)
Theorem bulk_selection_merge (server : Z → Response) (random : nat → Q)
    (st : State) (M : gmap Z SelectedMeta) :
  0 < targetCount st →
  let S := picked_entries (selection_buffer server st)
                          (selection_indices server random st) in
  let R := selectedMap (applyAutoSelect server random
                          (setSelectedMap M st)).1 in
  (addToExisting st = false → R = S)
  ∧ (addToExisting st = true →
     ∀ k, R !! k = match S !! k with Some v => Some v | None => M !! k end)
  ∧ (∀ k, match S !! k with
          | Some v =>
              ∃ item, item ∈ picked_items (selection_buffer server st)
                               (selection_indices server random st)
                ∧ art_id item = k ∧ v = metaOf item
          | None =>
              k ∉ art_id <$> picked_items (selection_buffer server st)
                               (selection_indices server random st)
          end).
Proof.
  intros Hn S R.
  assert (∀ k, match S !! k with
          | Some v =>
              ∃ item, item ∈ picked_items (selection_buffer server st)
                               (selection_indices server random st)
                ∧ art_id item = k ∧ v = metaOf item
          | None =>
              k ∉ art_id <$> picked_items (selection_buffer server st)
                               (selection_indices server random st)
          end) as Hpin.
  { intros k. subst S. unfold picked_entries.
    set (items := picked_items _ _).
    destruct (list_to_map _ !! k) as [v|] eqn:Hk.
    - apply elem_of_list_to_map_2 in Hk.
      rewrite elem_of_reverse in Hk.
      apply list_elem_of_fmap in Hk as (item & [= -> ->] & Hin).
      by exists item.
    - apply not_elem_of_list_to_map in Hk.
      rewrite <- (reverse_involutive (art_id <$> items)).
      rewrite elem_of_reverse, <- fmap_reverse.
      rewrite <- fmap_reverse, <- list_fmap_compose in Hk. exact Hk. }
  split; [|split; [|exact Hpin]]; clear Hpin; subst S R;
  rewrite applyAutoSelect_run by done; cbn [fst];
  rewrite selectedMap_written;
  change (selection_buffer server (setSelectedMap M st))
    with (selection_buffer server st);
  change (selection_indices server random (setSelectedMap M st))
    with (selection_indices server random st);
  change (addToExisting (setSelectedMap M st)) with (addToExisting st);
  rewrite write_picks_entries; intros Ha; rewrite Ha.
  - by rewrite (right_id_L ∅ (∪)).
  - intros k. change (selectedMap (setSelectedMap M st)) with M.
    rewrite lookup_union.
    destruct (picked_entries _ _ !! k) as [v|]; simpl.
    + by destruct (M !! k).
    + by destruct (M !! k).
Qed.

Lemma bulk_selection_merge_witness :
  let st := demo_state first 2 true in
  let M : gmap Z SelectedMeta := {[ 1 := mkSelectedMeta 1 (Some "old") None ]} in
  let S := picked_entries (selection_buffer demo_server st)
                          (selection_indices demo_server demo_random st) in
  let R := selectedMap (applyAutoSelect demo_server demo_random
                          (setSelectedMap M st)).1 in
  (addToExisting st = false → R = S)
  ∧ (addToExisting st = true →
     ∀ k, R !! k = match S !! k with Some v => Some v | None => M !! k end)
  ∧ (∀ k, match S !! k with
          | Some v =>
              ∃ item, item ∈ picked_items (selection_buffer demo_server st)
                               (selection_indices demo_server demo_random st)
                ∧ art_id item = k ∧ v = metaOf item
          | None =>
              k ∉ art_id <$> picked_items (selection_buffer demo_server st)
                               (selection_indices demo_server demo_random st)
          end).
Proof.
  apply (bulk_selection_merge demo_server demo_random
           (demo_state first 2 true)).
  reflexivity.
Defined.

(** C7. For a target count [N <= 0], an absent input counting as [0], bulk
    selection fetches no page and leaves the selection map as it was: it
    only hides the overlay. *)
Theorem non_positive_target_is_no_op (server : Z → Response)
    (random : nat → Q) (st : State) :
  selectNumber st = None ∨ (∃ N, selectNumber st = Some N ∧ N ≤ 0) →
  (applyAutoSelect server random st).2 = []
  ∧ selectedMap (applyAutoSelect server random st).1 = selectedMap st
  ∧ (applyAutoSelect server random st).1 = hideOverlay st.
Proof.
  intros Hn. rewrite applyAutoSelect_no_op; [done|].
  unfold targetCount. destruct Hn as [->|(N & -> & HN)]; simpl; lia.
Qed.

Lemma non_positive_target_is_no_op_witness :
  (applyAutoSelect demo_server demo_random (demo_state first (-2) false)).2
  = []
  ∧ selectedMap (applyAutoSelect demo_server demo_random
                   (demo_state first (-2) false)).1
    = {[ 100 := metaOf (demo_art 100) ]}
  ∧ (applyAutoSelect demo_server demo_random (demo_state first (-2) false)).1
    = hideOverlay (demo_state first (-2) false).
Proof.
  apply (non_positive_target_is_no_op demo_server demo_random
           (demo_state first (-2) false)).
  right. exists (-2). split; [reflexivity|lia].
Defined.

(** C9. Checkbox select and deselect, side-panel deselect, clear, and bulk
    selection with [addToExisting] true or false all keep the invariant that
    every key of the selection map is the [id] of the record under it. *)
Theorem mutations_preserve_key_inv (server : Z → Response)
    (random : nat → Q) (st : State) :
  key_inv (selectedMap st) →
  (∀ row checked, key_inv (selectedMap (onCheckboxChange row checked st)))
  ∧ (∀ id, key_inv (selectedMap (deselectId id st)))
  ∧ key_inv (selectedMap (doClearSelections st))
  ∧ key_inv (selectedMap (applyAutoSelect server random st).1).
Proof.
  intros Hinv. repeat split.
  - intros row checked. unfold onCheckboxChange. cbn [setSelectedMap selectedMap].
    destruct (default false checked).
    + by apply map_Forall_insert_2.
    + by apply map_Forall_delete.
  - intros id. by apply map_Forall_delete.
  - apply map_Forall_empty.
  - destruct (Z.le_gt_cases (targetCount st) 0) as [Hn|Hn].
    + by rewrite applyAutoSelect_no_op.
    + rewrite applyAutoSelect_run by lia. cbn [fst].
      rewrite selectedMap_written.
      apply write_picks_key_inv.
      destruct (addToExisting st); [done|apply map_Forall_empty].
Qed.

Lemma mutations_preserve_key_inv_witness :
  (∀ row checked,
     key_inv (selectedMap (onCheckboxChange row checked
                             (demo_state random_ 14 true))))
  ∧ (∀ id, key_inv (selectedMap (deselectId id (demo_state random_ 14 true))))
  ∧ key_inv (selectedMap (doClearSelections (demo_state random_ 14 true)))
  ∧ key_inv (selectedMap (applyAutoSelect demo_server demo_random
                            (demo_state random_ 14 true)).1).
Proof.
  apply (mutations_preserve_key_inv demo_server demo_random
           (demo_state random_ 14 true)).
  apply map_Forall_singleton. reflexivity.
Defined.

(** C5. The accumulation loop ends after [k] fetches, of the pages
    [page + 1, ..., page + k], with [k <= max(0, totalPages - page)] and
    [totalPages] the least number of pages, at least [1], that hold
    [totalRecords] records of [rowsPerPage] each. Before each fetch the
    buffer was still short of [N], so nothing is fetched once [N] items are
    there, and nothing at all when the rows of the current page suffice.
    With page size 12, 10 records, page 1 and [N = 5], strategy [first]:
    one page in total, no fetch, indices 0 to 4. *)
Theorem accumulation_is_bounded (server : Z → Response) (random : nat → Q)
    (st : State) :
  0 < targetCount st →
  (∃ k, 0 ≤ k ≤ Z.max 0 (totalPagesOf (totalRecords st) - page st)
     ∧ (applyAutoSelect server random st).2 = seqZ (page st + 1) k
     ∧ selection_buffer server st
       = buffer_after server (rows st) (page st + 1) k
     ∧ ∀ j, 0 ≤ j < k →
         Z.of_nat (length (buffer_after server (rows st) (page st + 1) j))
         < targetCount st)
  ∧ (targetCount st ≤ Z.of_nat (length (rows st)) →
     (applyAutoSelect server random st).2 = []
     ∧ selection_buffer server st = rows st)
  ∧ (1 ≤ totalPagesOf (totalRecords st)
     ∧ totalRecords st ≤ rowsPerPage * totalPagesOf (totalRecords st)
     ∧ ∀ q, 1 ≤ q → totalRecords st ≤ rowsPerPage * q →
         totalPagesOf (totalRecords st) ≤ q)
  ∧ (rowsPerPage = 12 →
     length (rows st) = 10%nat → totalRecords st = 10 → page st = 1 →
     selectNumber st = Some 5 → strategy st = first →
     totalPagesOf (totalRecords st) = 1
     ∧ (applyAutoSelect server random st).2 = []
     ∧ selection_indices server random st
       = [Some 0; Some 1; Some 2; Some 3; Some 4]).
Proof.
  intros Hn.
  destruct (gather_run server st) as (k & Ht & Hbuf & Hf & Hshort & Hexit).
  assert (targetCount st ≤ Z.of_nat (length (rows st)) →
          (applyAutoSelect server random st).2 = []
          ∧ selection_buffer server st = rows st) as Hsuffice.
  { intros Hrows. rewrite applyAutoSelect_run by done. cbn [snd].
    assert (k = 0) as ->.
    { destruct (decide (k = 0)) as [|Hk]; [done|].
      specialize (Hshort 0). rewrite buffer_after_0 in Hshort. lia. }
    rewrite Hf, Hbuf, buffer_after_0. done. }
  split; [|split; [|split]].
  - exists k. rewrite applyAutoSelect_run by done. cbn [snd].
    repeat split; try done; lia.
  - exact Hsuffice.
  - unfold totalPagesOf. repeat split.
    + lia.
    + pose proof (ceil_div_upper (totalRecords st) rowsPerPage).
      unfold rowsPerPage in *. lia.
    + intros q Hq Hle.
      assert (ceil_div (totalRecords st) rowsPerPage ≤ q); [|lia].
      apply ceil_div_least; [done|lia].
  - intros _ Hlen Htot Hpage Hsel Hstrat.
    assert (targetCount st = 5) as H5
      by (unfold targetCount; by rewrite Hsel).
    destruct Hsuffice as [Hnone Hsame]; [lia|].
    split; [by rewrite Htot|]. split; [done|].
    unfold selection_indices.
    rewrite Hsame, Hlen, Hstrat, H5. reflexivity.
Qed.

Lemma accumulation_is_bounded_witness :
  (∃ k, 0 ≤ k ≤ 4
     ∧ (applyAutoSelect demo_server demo_random (demo_state first 14 true)).2
       = seqZ 2 k
     ∧ selection_buffer demo_server (demo_state first 14 true)
       = buffer_after demo_server (demo_art <$> seqZ 0 12) 2 k
     ∧ ∀ j, 0 ≤ j < k →
         Z.of_nat (length (buffer_after demo_server
                             (demo_art <$> seqZ 0 12) 2 j)) < 14)
  ∧ (totalPagesOf 10 = 1
     ∧ (applyAutoSelect demo_server demo_random short_catalogue_state).2 = []
     ∧ selection_indices demo_server demo_random short_catalogue_state
       = [Some 0; Some 1; Some 2; Some 3; Some 4]).
Proof.
  split.
  - apply (accumulation_is_bounded demo_server demo_random
             (demo_state first 14 true)).
    reflexivity.
  - apply (accumulation_is_bounded demo_server demo_random
             short_catalogue_state); reflexivity.
Defined.



(** ** Start-up *)

Example parse_demo_blob :
  JSON_parse demo_blob
  = Some (JObject [("27992", JObject [("id", JNumber "27992");
                                      ("title", JString "A Sunday")])]).
Proof. vm_compute. reflexivity. Qed.

Example parse_escapes :
  JSON_parse (dq +:+ "a\u0041\n\u00e9\ud83d\ude00\\" +:+ dq)
  = Some (JString (string_of_list_ascii
            ["a"%char; "A"%char; byte 10; byte 195; byte 169;
             byte 240; byte 159; byte 152; byte 128; byte 92]))
  ∧ JSON_parse (dq +:+ "\x" +:+ dq) = None
  ∧ JSON_parse (dq +:+ "\u12" +:+ dq) = None.
Proof. vm_compute. repeat split. Qed.

Example render_samples :
  (render_throws <$> JSON_parse ("{" +:+ dq +:+ "1" +:+ dq +:+ ":null}"))
  = Some true
  ∧ (render_throws <$> JSON_parse ("{" +:+ dq +:+ "1" +:+ dq +:+ ":null,"
                                   +:+ dq +:+ "1" +:+ dq +:+ ":7}"))
    = Some false
  ∧ (render_throws <$> JSON_parse "[null]") = Some true
  ∧ (render_throws <$> JSON_parse "[1,[2],true]") = Some false
  ∧ (render_throws <$> JSON_parse ("{" +:+ dq +:+ "1" +:+ dq +:+ ":{" +:+ dq
                                   +:+ "title" +:+ dq +:+ ":{}}}"))
    = Some true
  ∧ (render_throws <$> JSON_parse ("{" +:+ dq +:+ "1" +:+ dq +:+ ":{" +:+ dq
                                   +:+ "\u0074itle" +:+ dq +:+ ":[{}]}}"))
    = Some true
  ∧ (render_throws <$> JSON_parse ("{" +:+ dq +:+ "1" +:+ dq +:+ ":{" +:+ dq
                                   +:+ "title" +:+ dq +:+ ":null}}"))
    = Some false
  ∧ (render_throws <$> JSON_parse "42") = Some false
  ∧ (render_throws <$> JSON_parse demo_blob) = Some false.
Proof. vm_compute. repeat split. Qed.

Example parse_samples :
  JSON_parse " [1, -2.5e+3, true, null, {}] "
  = Some (JArray [JNumber "1"; JNumber "-2.5e+3"; JBool true; JNull;
                  JObject []])
  ∧ JSON_parse "[1,]" = None
  ∧ JSON_parse "01" = None
  ∧ JSON_parse "nul" = None
  ∧ JSON_parse "{} x" = None.
Proof. vm_compute. repeat split. Qed.

(** Absent, empty or unparseable persisted data gives the empty map. *)
Lemma initSelectedMap_recovers (read : StorageRead) :
  read = ReadThrows ∨ read = ReadValue None
  ∨ read = ReadValue (Some EmptyString)
  ∨ (∃ raw, read = ReadValue (Some raw) ∧ JSON_parse raw = None) →
  initSelectedMap read = JObject [].
Proof.
  intros [->|[->|[->|(raw & -> & Hp)]]]; try done.
  unfold initSelectedMap. rewrite Hp. by destruct (String.eqb raw _).
Qed.

(** Persisted data that parses is the initial state as it is. *)
Lemma initSelectedMap_parsed (raw : string) (v : JSValue) :
  raw ≠ EmptyString → JSON_parse raw = Some v →
  initSelectedMap (ReadValue (Some raw)) = v.
Proof.
  intros Hne Hp. unfold initSelectedMap. rewrite Hp.
  destruct (String.eqb_spec raw EmptyString); [done|done].
Qed.

Example persisted_not_json :
  JSON_parse "not json" = None
  ∧ initSelectedMap (ReadValue (Some "not json")) = JObject []
  ∧ render_throws (initSelectedMap (ReadValue (Some "not json"))) = false.
Proof. vm_compute. repeat split. Qed.

(** C8 (failing input). The persisted blob [null] is not a serialized
    selection map, yet it parses: the initializer returns [null] instead of
    the empty map, and the first render throws on it. *)
Theorem persisted_null_is_not_recovered :
  JSON_parse "null" = Some JNull
  ∧ initSelectedMap (ReadValue (Some "null")) = JNull
  ∧ initSelectedMap (ReadValue (Some "null")) ≠ JObject []
  ∧ render_throws (initSelectedMap (ReadValue (Some "null"))) = true.
Proof. vm_compute. repeat split. discriminate. Qed.

(** * Further properties of the component *)

(** ** Checkboxes and the selection map *)

Lemma isSelected_lookup (st : State) (row : Artwork) :
  isSelected st row = true ↔ is_Some (selectedMap st !! art_id row).
Proof.
  unfold isSelected. destruct (selectedMap st !! art_id row); split;
    intros H; try done; by destruct H.
Qed.

Lemma isSelected_false (st : State) (row : Artwork) :
  isSelected st row = false ↔ selectedMap st !! art_id row = None.
Proof. unfold isSelected. by destruct (selectedMap st !! art_id row). Qed.

(** X1. A checked box selects its row and an unchecked one, or an event
    without [checked], deselects it; the stored record is the snapshot of
    the row; rows with another id keep their state. *)
Theorem checkbox_sets_own_row_only (st : State) (row other : Artwork)
    (checked : option bool) :
  isSelected (onCheckboxChange row (Some true) st) row = true
  ∧ selectedMap (onCheckboxChange row (Some true) st) !! art_id row
    = Some (metaOf row)
  ∧ isSelected (onCheckboxChange row (Some false) st) row = false
  ∧ onCheckboxChange row None st = onCheckboxChange row (Some false) st
  ∧ (art_id other ≠ art_id row →
     selectedMap (onCheckboxChange row checked st) !! art_id other
     = selectedMap st !! art_id other
     ∧ isSelected (onCheckboxChange row checked st) other
       = isSelected st other).
Proof.
  unfold isSelected, onCheckboxChange. cbn [setSelectedMap selectedMap].
  repeat split.
  - cbn [default from_option id]. by rewrite lookup_insert_eq.
  - cbn [default from_option id]. by rewrite lookup_insert_eq.
  - cbn [default from_option id]. by rewrite lookup_delete_eq.
  - destruct (default false checked).
    + by rewrite lookup_insert_ne.
    + by rewrite lookup_delete_ne.
  - destruct (default false checked).
    + by rewrite lookup_insert_ne.
    + by rewrite lookup_delete_ne.
Qed.

(** X2. Ticking a row and unticking it again leaves the map without that
    row: it is the old map when the row was not selected before. Ticking a
    row that is already selected replaces its record by the new snapshot
    and keeps the number of selected rows. *)
Theorem checkbox_toggle_and_reselect (st : State) (row : Artwork) :
  selectedMap (onCheckboxChange row (Some false)
                 (onCheckboxChange row (Some true) st))
  = delete (art_id row) (selectedMap st)
  ∧ (isSelected st row = false →
     selectedMap (onCheckboxChange row (Some false)
                    (onCheckboxChange row (Some true) st))
     = selectedMap st)
  ∧ (isSelected st row = true →
     selectedCount (onCheckboxChange row (Some true) st) = selectedCount st)
  ∧ (∀ row', art_id row' = art_id row →
       selectedMap (onCheckboxChange row' (Some true)
                      (onCheckboxChange row (Some true) st))
       = selectedMap (onCheckboxChange row' (Some true) st)).
Proof.
  unfold onCheckboxChange, selectedCount.
  cbn [setSelectedMap selectedMap default from_option id].
  repeat split.
  - by rewrite delete_insert_eq.
  - intros Hno. apply isSelected_false in Hno.
    rewrite delete_insert_eq. by apply delete_id.
  - intros Hyes. apply isSelected_lookup in Hyes as [v Hv].
    rewrite <- (insert_delete_id _ _ _ Hv) at 2.
    rewrite <- insert_delete_eq.
    rewrite !map_size_insert_None by apply lookup_delete_eq. done.
  - intros row' ->. by rewrite insert_insert_eq.
Qed.

(** X3. The number shown in the side panel: ticking a row that was not
    selected adds one, unticking a selected row takes one away, and
    unticking a row that was not selected changes nothing at all. *)
Theorem checkbox_changes_count_by_one (st : State) (row : Artwork) :
  (isSelected st row = false →
   selectedCount (onCheckboxChange row (Some true) st)
   = S (selectedCount st)
   ∧ selectedMap (onCheckboxChange row (Some false) st) = selectedMap st)
  ∧ (isSelected st row = true →
     S (selectedCount (onCheckboxChange row (Some false) st))
     = selectedCount st).
Proof.
  unfold onCheckboxChange, selectedCount.
  cbn [setSelectedMap selectedMap default from_option id].
  split.
  - intros Hno. apply isSelected_false in Hno. split.
    + by rewrite map_size_insert_None.
    + by apply delete_id.
  - intros Hyes. apply isSelected_lookup in Hyes as [v Hv].
    rewrite <- (insert_delete_id _ _ _ Hv) at 2.
    by rewrite map_size_insert_None by apply lookup_delete_eq.
Qed.

(** ** The side panel and the clear dialog *)

(** X4. Under the invariant that keys are record ids, the button of a
    side-panel entry removes that entry and no other, and the count drops
    by one. *)
Theorem panel_button_removes_its_entry (st : State) (k : Z)
    (m : SelectedMeta) :
  key_inv (selectedMap st) →
  selectedMap st !! k = Some m →
  selectedMap (panelDeselect m st) = delete k (selectedMap st)
  ∧ selectedMap (panelDeselect m st) !! k = None
  ∧ (∀ k', k' ≠ k →
       selectedMap (panelDeselect m st) !! k' = selectedMap st !! k')
  ∧ S (selectedCount (panelDeselect m st)) = selectedCount st.
Proof.
  intros Hinv Hk. pose proof (Hinv k m Hk) as Hid. simpl in Hid.
  unfold panelDeselect, deselectId, selectedCount.
  cbn [setSelectedMap selectedMap]. rewrite Hid. repeat split.
  - apply lookup_delete_eq.
  - intros k' Hne. by apply lookup_delete_ne.
  - rewrite map_size_delete_Some by done.
    assert (size (selectedMap st) ≠ 0%nat); [|lia].
    intros H0. apply map_size_empty_inv in H0. by rewrite H0 in Hk.
Qed.

Lemma panel_button_removes_its_entry_witness :
  selectedMap (panelDeselect (metaOf (demo_art 100))
                 (demo_state first 3 true)) = ∅.
Proof.
  destruct (panel_button_removes_its_entry (demo_state first 3 true) 100
              (metaOf (demo_art 100))) as (-> & _).
  - apply map_Forall_singleton. reflexivity.
  - reflexivity.
  - apply delete_singleton_eq.
Defined.

(** X5. Clearing empties the selection whatever it was: no row is selected
    afterwards, the count is zero, the dialog is closed, and clearing again
    changes nothing. Opening the dialog or cancelling it does not touch the
    selection. *)
Theorem clear_empties_and_is_idempotent (st : State) (row : Artwork) :
  selectedMap (doClearSelections st) = ∅
  ∧ isSelected (doClearSelections st) row = false
  ∧ selectedCount (doClearSelections st) = 0%nat
  ∧ showClearDialog (doClearSelections st) = false
  ∧ doClearSelections (doClearSelections st) = doClearSelections st
  ∧ selectedMap (confirmClearSelections st) = selectedMap st
  ∧ selectedMap (cancelClearDialog (confirmClearSelections st))
    = selectedMap st
  ∧ doClearSelections (confirmClearSelections st) = doClearSelections st.
Proof.
  unfold isSelected, selectedCount. cbn. rewrite lookup_empty.
  repeat split.
Qed.

(** ** What bulk selection writes *)

Lemma foldl_insert_not_in (items : list Artwork)
    (base : gmap Z SelectedMeta) (k : Z) :
  k ∉ art_id <$> items →
  foldl (λ b item, <[art_id item := metaOf item]> b) base items !! k
  = base !! k.
Proof.
  revert base. induction items as [|it items IH]; intros base Hk; [done|].
  rewrite fmap_cons, not_elem_of_cons in Hk. destruct Hk as [Hne Hk].
  simpl. rewrite IH by done. by rewrite lookup_insert_ne.
Qed.

Lemma foldl_insert_in (items : list Artwork)
    (base : gmap Z SelectedMeta) (k : Z) :
  k ∈ art_id <$> items →
  ∃ item, item ∈ items ∧ art_id item = k
    ∧ foldl (λ b item, <[art_id item := metaOf item]> b) base items !! k
      = Some (metaOf item).
Proof.
  revert base. induction items as [|it items IH]; intros base Hk.
  - by apply elem_of_nil in Hk.
  - simpl. destruct (decide (k ∈ art_id <$> items)) as [Hin|Hnot].
    + destruct (IH (<[art_id it := metaOf it]> base) Hin)
        as (item & Hitem & Hid & Hl).
      exists item. split; [by apply elem_of_cons; right|]. by split.
    + rewrite fmap_cons, elem_of_cons in Hk.
      destruct Hk as [->|Hk]; [|done].
      exists it. split; [by apply elem_of_cons; left|]. split; [done|].
      rewrite foldl_insert_not_in by done. apply lookup_insert_eq.
Qed.

Lemma picked_items_in_buffer (combined : list Artwork)
    (indices : list (option Z)) (item : Artwork) :
  item ∈ picked_items combined indices → item ∈ combined.
Proof.
  unfold picked_items. rewrite list_elem_of_omap.
  intros (i & _ & Hi). unfold at_index in Hi.
  destruct i as [z|]; [|done]. destruct (z <? 0); [done|].
  by eapply list_elem_of_lookup_2.
Qed.

(** X6. After bulk selection with a positive target, a row is shown as
    selected exactly when its id is the id of a picked item, or, with
    [addToExisting] on, when it was selected before. *)
Theorem bulk_selection_selected_rows (server : Z → Response)
    (random : nat → Q) (st : State) (row : Artwork) :
  0 < targetCount st →
  isSelected (applyAutoSelect server random st).1 row = true
  ↔ (addToExisting st = true ∧ isSelected st row = true)
    ∨ art_id row ∈ art_id <$> picked_items (selection_buffer server st)
                                (selection_indices server random st).
Proof.
  intros Hn. rewrite !isSelected_lookup.
  rewrite applyAutoSelect_run by done. cbn [fst].
  rewrite selectedMap_written, write_picks_items.
  set (items := picked_items _ _).
  destruct (decide (art_id row ∈ art_id <$> items)) as [Hin|Hnot].
  - destruct (foldl_insert_in items
                (if addToExisting st then selectedMap st else ∅)
                (art_id row) Hin) as (item & _ & _ & ->).
    split; [by right|done].
  - rewrite foldl_insert_not_in by done.
    destruct (addToExisting st).
    + split; [by left|]. by intros [[_ H]|H].
    + rewrite lookup_empty. split; [by intros [? ?]|].
      by intros [[? _]|?].
Qed.

Lemma bulk_selection_selected_rows_witness :
  isSelected (applyAutoSelect demo_server demo_random
                (demo_state every 3 false)).1 (demo_art 6) = true
  ↔ (false = true ∧ false = true)
    ∨ 6 ∈ art_id <$> picked_items
                      (selection_buffer demo_server (demo_state every 3 false))
                      (selection_indices demo_server demo_random
                         (demo_state every 3 false)).
Proof.
  apply (bulk_selection_selected_rows demo_server demo_random
           (demo_state every 3 false) (demo_art 6)).
  reflexivity.
Defined.

(** X7. The record stored for a picked item is the snapshot of a picked
    item with that id; when no two items of the buffer share an id it is
    the snapshot of the item itself, whatever was stored under that id
    before. *)
Theorem bulk_selection_stores_snapshots (server : Z → Response)
    (random : nat → Q) (st : State) (item : Artwork) :
  0 < targetCount st →
  item ∈ picked_items (selection_buffer server st)
                      (selection_indices server random st) →
  (∃ item', item' ∈ selection_buffer server st
      ∧ art_id item' = art_id item
      ∧ selectedMap (applyAutoSelect server random st).1 !! art_id item
        = Some (metaOf item'))
  ∧ (NoDup (art_id <$> selection_buffer server st) →
     selectedMap (applyAutoSelect server random st).1 !! art_id item
     = Some (metaOf item)).
Proof.
  intros Hn Hitem.
  assert (∃ item', item' ∈ selection_buffer server st
      ∧ art_id item' = art_id item
      ∧ selectedMap (applyAutoSelect server random st).1 !! art_id item
        = Some (metaOf item')) as Hex.
  { rewrite applyAutoSelect_run by done. cbn [fst].
    rewrite selectedMap_written, write_picks_items.
    destruct (foldl_insert_in _
                (if addToExisting st then selectedMap st else ∅)
                (art_id item) (list_elem_of_fmap_2 art_id _ _ Hitem))
      as (item' & Hin & Hid & Hl).
    exists item'. split; [by eapply picked_items_in_buffer|]. by split. }
  split; [exact Hex|].
  intros Hnd. destruct Hex as (item' & Hin' & Hid & ->).
  apply picked_items_in_buffer in Hitem.
  apply list_elem_of_lookup in Hitem as [i Hi].
  apply list_elem_of_lookup in Hin' as [j Hj].
  assert (i = j) as ->.
  { eapply NoDup_lookup; [exact Hnd| |].
    - rewrite list_lookup_fmap, Hi. done.
    - rewrite list_lookup_fmap, Hj. simpl. by rewrite Hid. }
  congruence.
Qed.

Lemma bulk_selection_stores_snapshots_witness :
  selectedMap (applyAutoSelect demo_server demo_random
                 (demo_state first 14 true)).1 !! 25
  = Some (metaOf (demo_art 25)).
Proof.
  apply (bulk_selection_stores_snapshots demo_server demo_random
           (demo_state first 14 true) (demo_art 25)).
  - reflexivity.
  - vm_compute. repeat constructor.
  - apply (bool_decide_unpack _). vm_compute. exact I.
Defined.

Lemma picked_item_is_written (combined : list Artwork)
    (indices : list (option Z)) (base : gmap Z SelectedMeta)
    (item : Artwork) :
  item ∈ picked_items combined indices →
  is_Some (write_picks combined base indices !! art_id item).
Proof.
  intros Hitem. rewrite write_picks_items.
  destruct (foldl_insert_in _ base (art_id item)
              (list_elem_of_fmap_2 art_id _ _ Hitem)) as (it & _ & _ & ->).
  done.
Qed.

Lemma write_picks_size (combined : list Artwork)
    (indices : list (option Z)) (base : gmap Z SelectedMeta) :
  (size (write_picks combined base indices)
   ≤ size base + length indices)%nat.
Proof.
  unfold write_picks. revert base.
  induction indices as [|i l IH]; intros base; [simpl; lia|].
  simpl. etrans; [apply IH|]. unfold write_pick.
  destruct (at_index combined i) as [item|]; [|lia].
  rewrite map_size_insert. destruct (base !! art_id item); simpl; lia.
Qed.

Lemma random_loop_length (random : nat → Q) (st : list Z * list (option Z))
    (l : list nat) :
  length (foldl (random_step random) st l).2
  = (length st.2 + length l)%nat.
Proof.
  revert st. induction l as [|i l IH]; intros st; [simpl; lia|].
  simpl. rewrite IH. unfold random_step. cbn [snd].
  rewrite length_app. simpl. lia.
Qed.

Lemma every_loop_length (pickCount availableCount step : Z)
    (indices : list (option Z)) (idx : Z) :
  (length (every_loop pickCount availableCount step indices idx)
   ≤ length indices `max` Z.to_nat pickCount)%nat.
Proof.
  funelim (every_loop pickCount availableCount step indices idx).
  - match goal with
    | IH : (length (every_loop _ _ _ _ _) ≤ _)%nat |- _ =>
        etrans; [exact IH|]
    end.
    rewrite length_app. simpl. lia.
  - lia.
Qed.

(** No strategy produces more indices than [pickCount]. *)
Lemma pick_indices_length (random : nat → Q) (strat : Strategy)
    (sel : option Z) (n availableCount : Z) :
  (length (pick_indices random strat sel n availableCount)
   ≤ Z.to_nat (Z.min n availableCount))%nat.
Proof.
  unfold pick_indices. destruct strat.
  - rewrite length_fmap. unfold array_from_length.
    by rewrite length_seqZ.
  - unfold random_loop. rewrite random_loop_length, length_seq. simpl. lia.
  - destruct (stepOf sel =? 1).
    + rewrite length_fmap. unfold array_from_length.
      by rewrite length_seqZ.
    + etrans; [apply every_loop_length|]. simpl. lia.
Qed.

(** X8. Bulk selection never adds more entries than [min(N, available)]:
    the count afterwards is at most the count before plus that number, and
    at most that number alone when [addToExisting] is off. *)
Theorem bulk_selection_count_bound (server : Z → Response)
    (random : nat → Q) (st : State) :
  0 < targetCount st →
  (selectedCount (applyAutoSelect server random st).1
   ≤ (if addToExisting st then selectedCount st else 0)
     + Z.to_nat (Z.min (targetCount st)
                       (Z.of_nat (length (selection_buffer server st)))))%nat.
Proof.
  intros Hn. unfold selectedCount.
  rewrite applyAutoSelect_run by done. cbn [fst].
  rewrite selectedMap_written.
  etrans; [apply write_picks_size|].
  pose proof (pick_indices_length random (strategy st) (selectNumber st)
                (targetCount st)
                (Z.of_nat (length (selection_buffer server st)))) as Hlen.
  fold (selection_indices server random st) in Hlen.
  destruct (addToExisting st); [lia|].
  rewrite map_size_empty. lia.
Qed.

Lemma bulk_selection_count_bound_witness :
  (selectedCount (applyAutoSelect demo_server demo_random
                    (demo_state random_ 14 true)).1 ≤ 1 + 14)%nat.
Proof.
  apply (bulk_selection_count_bound demo_server demo_random
           (demo_state random_ 14 true)).
  reflexivity.
Defined.

(** X9. Bulk selection changes the selection, hides the overlay and resets
    its busy flag, and nothing else: the table still shows the same rows of
    the same page although further pages were fetched. With strategy
    [first] or [every], running it again on the result, the server
    answering alike, fetches the same pages and leaves the selection as it
    is. *)
Theorem bulk_selection_frame_and_rerun (server : Z → Response)
    (random random' : nat → Q) (st : State) :
  0 < targetCount st →
  let st' := (applyAutoSelect server random st).1 in
  (rows st' = rows st ∧ page st' = page st
   ∧ totalRecords st' = totalRecords st
   ∧ selectNumber st' = selectNumber st ∧ strategy st' = strategy st
   ∧ addToExisting st' = addToExisting st
   ∧ showClearDialog st' = showClearDialog st
   ∧ overlayVisible st' = false ∧ selectingLoading st' = false)
  ∧ (strategy st ≠ random_ →
     (applyAutoSelect server random' st').2
     = (applyAutoSelect server random st).2
     ∧ selectedMap (applyAutoSelect server random' st').1
       = selectedMap st').
Proof.
  intros Hn st'. subst st'.
  rewrite (applyAutoSelect_run server random st Hn). cbn [fst snd].
  split; [done|]. intros Hs.
  set (R := write_picks _ _ _).
  set (st' := setSelectingLoading false _).
  assert (0 < targetCount st') as Hn' by exact Hn.
  rewrite (applyAutoSelect_run server random' st' Hn').
  cbn [fst snd]. split; [done|].
  rewrite selectedMap_written.
  change (selection_buffer server st') with (selection_buffer server st).
  change (addToExisting st') with (addToExisting st).
  change (selectedMap st') with R.
  assert (selection_indices server random' st'
          = selection_indices server random st) as ->.
  { unfold selection_indices.
    change (selection_buffer server st') with (selection_buffer server st).
    change (strategy st') with (strategy st).
    change (selectNumber st') with (selectNumber st).
    change (targetCount st') with (targetCount st).
    unfold pick_indices. by destruct (strategy st). }
  subst R. destruct (addToExisting st); [|done].
  rewrite (write_picks_union _ _ (write_picks _ _ _)).
  rewrite (write_picks_union _ _ (selectedMap st)).
  by rewrite (assoc_L (∪)), (idemp_L (∪)).
Qed.

Lemma bulk_selection_frame_and_rerun_witness :
  let st := demo_state every 3 true in
  let st' := (applyAutoSelect demo_server demo_random st).1 in
  (applyAutoSelect demo_server (λ _, 0%Q) st').2
  = (applyAutoSelect demo_server demo_random st).2
  ∧ selectedMap (applyAutoSelect demo_server (λ _, 0%Q) st').1
    = selectedMap st'.
Proof.
  apply (bulk_selection_frame_and_rerun demo_server demo_random (λ _, 0%Q)
           (demo_state every 3 true)).
  - reflexivity.
  - discriminate.
Defined.

(** ** Edge cases of the strategies *)

Lemma random_loop_exhausts (random : nat → Q) (n availableCount : Z) :
  unit_interval random → 0 ≤ availableCount → availableCount ≤ n →
  ∃ picked : list Z,
    (random_loop random availableCount (Z.min n availableCount)).2
    = Some <$> picked
    ∧ picked ≡ₚ seqZ 0 availableCount.
Proof.
  intros Hr Ha Hn. unfold random_loop.
  destruct (random_loop_inv random Hr availableCount
              (Z.to_nat (Z.min n availableCount)))
    as (picked & Hidx & Hperm & Hlen); [lia|].
  exists picked. split; [done|].
  pose proof (Permutation_length Hperm) as Hl.
  rewrite length_app, length_seqZ, Hlen in Hl.
  destruct (foldl _ _ _).1 as [|x pool]; [done|]. simpl in Hl. lia.
Qed.

(** X10. When the target is at least the number of available items,
    strategies [first] and [random] select every item of the buffer. *)
Theorem short_buffer_is_selected_whole (server : Z → Response)
    (random : nat → Q) (st : State) (row : Artwork) :
  unit_interval random →
  0 < targetCount st →
  Z.of_nat (length (selection_buffer server st)) ≤ targetCount st →
  strategy st ≠ every →
  row ∈ selection_buffer server st →
  row ∈ picked_items (selection_buffer server st)
                     (selection_indices server random st)
  ∧ isSelected (applyAutoSelect server random st).1 row = true.
Proof.
  intros Hr Hn Hshort Hs Hrow.
  assert (row ∈ picked_items (selection_buffer server st)
                             (selection_indices server random st)) as Hin.
  { unfold selection_indices, pick_indices.
    destruct (strategy st); [| |done].
    - rewrite picked_items_first by lia.
      rewrite Z.min_r by lia. by rewrite Nat2Z.id, firstn_all.
    - destruct (random_loop_exhausts random (targetCount st)
                  (Z.of_nat (length (selection_buffer server st))))
        as (picked & -> & Hperm); [done|lia|lia|].
      apply list_elem_of_lookup in Hrow as [i Hi].
      unfold picked_items. apply list_elem_of_omap.
      exists (Some (Z.of_nat i)). split.
      + apply list_elem_of_fmap_2. rewrite Hperm. apply elem_of_seqZ.
        apply lookup_lt_Some in Hi. lia.
      + unfold at_index. destruct (Z.ltb_spec (Z.of_nat i) 0); [lia|].
        by rewrite Nat2Z.id. }
  split; [done|]. apply isSelected_lookup.
  rewrite applyAutoSelect_run by done. cbn [fst].
  rewrite selectedMap_written. by apply picked_item_is_written.
Qed.

Lemma short_buffer_is_selected_whole_witness :
  isSelected (applyAutoSelect demo_server demo_random
                (demo_state random_ 99 false)).1 (demo_art 59) = true.
Proof.
  apply (short_buffer_is_selected_whole demo_server demo_random
           (demo_state random_ 99 false) (demo_art 59)).
  - exact demo_random_unit_interval.
  - reflexivity.
  - vm_compute. discriminate.
  - discriminate.
  - vm_compute. repeat constructor.
Defined.

(** X11. With strategy [every], a stride [N > 1] and a non-empty buffer of
    at most [N] items, only the first item of the buffer is picked. *)
Theorem every_with_short_buffer_picks_first (server : Z → Response)
    (random : nat → Q) (st : State) (N : Z) (item : Artwork)
    (rest : list Artwork) :
  strategy st = every →
  selectNumber st = Some N →
  1 < N →
  selection_buffer server st = item :: rest →
  Z.of_nat (length (item :: rest)) ≤ N →
  selection_indices server random st = [Some 0]
  ∧ picked_items (selection_buffer server st)
                 (selection_indices server random st) = [item].
Proof.
  intros Hs Hsel HN Hbuf Hlen.
  assert (selection_indices server random st = [Some 0]) as Hidx.
  { unfold selection_indices.
    assert (targetCount st = N) as -> by (unfold targetCount; by rewrite Hsel).
    rewrite Hs, Hsel, Hbuf. unfold pick_indices.
    rewrite stepOf_positive by lia.
    destruct (Z.eqb_spec N 1); [lia|].
    rewrite every_loop_walk by lia.
    set (a := Z.of_nat (length (item :: rest))) in *.
    assert (0 < a) by (subst a; simpl; lia).
    assert (ceil_div (a - 0) N = 1) as ->.
    { assert (ceil_div (a - 0) N ≤ 1) by (apply ceil_div_least; lia).
      assert (¬ ceil_div (a - 0) N ≤ 0); [|lia].
      rewrite ceil_div_least by lia. lia. }
    cbn [length app]. rewrite Z.min_r by lia. done. }
  split; [done|]. by rewrite Hidx, Hbuf.
Qed.

Lemma every_with_short_buffer_picks_first_witness :
  selection_indices demo_server demo_random (demo_state every 99 true)
  = [Some 0].
Proof.
  apply (every_with_short_buffer_picks_first demo_server demo_random
           (demo_state every 99 true) 99 (demo_art 0)
           (tail (selection_buffer demo_server (demo_state every 99 true)))).
  - reflexivity.
  - reflexivity.
  - lia.
  - vm_compute. reflexivity.
  - vm_compute. discriminate.
Defined.

(** X12. The loop gives up only when the pages are used up: if the buffer
    ends with fewer than [N] items, every page from the one after the
    current page up to [totalPages] was fetched. On the last page, or past
    it, nothing is fetched and the buffer is the rows of the page. *)
Theorem shortfall_means_pages_exhausted (server : Z → Response)
    (random : nat → Q) (st : State) :
  0 < targetCount st →
  (Z.of_nat (length (selection_buffer server st)) < targetCount st →
   (applyAutoSelect server random st).2
   = seqZ (page st + 1) (totalPagesOf (totalRecords st) - page st))
  ∧ (totalPagesOf (totalRecords st) ≤ page st →
     (applyAutoSelect server random st).2 = []
     ∧ selection_buffer server st = rows st).
Proof.
  intros Hn. rewrite applyAutoSelect_run by done. cbn [snd].
  destruct (gather_run server st) as (k & Ht & Hbuf & Hf & Hshort & Hexit).
  split.
  - intros Hlt. rewrite Hf. rewrite <- Hbuf in Hexit.
    destruct Hexit as [Hexit|Hexit]; [lia|].
    destruct (Z.le_gt_cases (page st) (totalPagesOf (totalRecords st))).
    + f_equal. lia.
    + assert (k = 0) as -> by lia. by rewrite !seqZ_nil by lia.
  - intros Hlast. assert (k = 0) as -> by lia.
    rewrite Hf, Hbuf, buffer_after_0. done.
Qed.

Lemma shortfall_means_pages_exhausted_witness :
  (applyAutoSelect demo_server demo_random (demo_state first 99 true)).2
  = [2; 3; 4; 5].
Proof.
  apply (shortfall_means_pages_exhausted demo_server demo_random
           (demo_state first 99 true)).
  - reflexivity.
  - vm_compute. reflexivity.
Defined.

(** X13. No strategy produces the same index twice. *)
Theorem indices_never_repeat (server : Z → Response) (random : nat → Q)
    (st : State) :
  unit_interval random →
  0 < targetCount st →
  NoDup (selection_indices server random st).
Proof.
  intros Hr Hn. unfold selection_indices.
  rewrite (targetCount_Some st Hn) at 1. unfold pick_indices.
  assert (Inj (=) (=) (@Some Z)) as Hinj by (intros x y; congruence).
  destruct (strategy st).
  - apply (NoDup_fmap_2 _), NoDup_seqZ.
  - destruct (random_indices_distinct random (targetCount st)
                (Z.of_nat (length (selection_buffer server st))) Hr)
      as (picked & -> & _ & Hnd & _); [lia|].
    by apply (NoDup_fmap_2 _).
  - rewrite stepOf_positive by done.
    destruct (Z.eqb_spec (targetCount st) 1).
    + apply (NoDup_fmap_2 _), NoDup_seqZ.
    + rewrite every_loop_walk by lia. rewrite app_nil_l.
      apply NoDup_fmap_2_strong; [|apply NoDup_seqZ].
      intros x y _ _ Heq. injection Heq as Heq. nia.
Qed.

Lemma indices_never_repeat_witness :
  NoDup (selection_indices demo_server demo_random
           (demo_state random_ 14 true)).
Proof.
  apply (indices_never_repeat demo_server demo_random
           (demo_state random_ 14 true)).
  - exact demo_random_unit_interval.
  - reflexivity.
Defined.

(** X19. When the rows of the current page and the pages after it, up to
    [totalPages], hold at least [N] items together, the loop ends with at
    least [N] items in the buffer, and strategies [first] and [random] then
    produce exactly [N] indices. *)
Theorem enough_items_are_gathered (server : Z → Response) (random : nat → Q)
    (st : State) :
  0 < targetCount st →
  targetCount st
  ≤ Z.of_nat (length (buffer_after server (rows st) (page st + 1)
                        (Z.max 0 (totalPagesOf (totalRecords st) - page st)))) →
  targetCount st ≤ Z.of_nat (length (selection_buffer server st))
  ∧ (strategy st ≠ every →
     length (selection_indices server random st)
     = Z.to_nat (targetCount st)).
Proof.
  intros Hn Hall.
  destruct (gather_run server st) as (k & Ht & Hbuf & _ & _ & Hexit).
  assert (targetCount st ≤ Z.of_nat (length (selection_buffer server st)))
    as Hgot.
  { rewrite Hbuf. destruct Hexit as [Hexit|Hexit]; [done|].
    assert (k = Z.max 0 (totalPagesOf (totalRecords st) - page st)) as ->
      by lia.
    done. }
  split; [done|]. intros Hs.
  unfold selection_indices, pick_indices.
  destruct (strategy st); [| |done].
  - rewrite length_fmap. unfold array_from_length.
    rewrite length_seqZ. f_equal. lia.
  - unfold random_loop. rewrite random_loop_length, length_seq.
    cbn [snd length]. f_equal. lia.
Qed.

Lemma enough_items_are_gathered_witness :
  14 ≤ Z.of_nat (length (selection_buffer demo_server
                           (demo_state random_ 14 true)))
  ∧ (random_ ≠ every →
     length (selection_indices demo_server demo_random
               (demo_state random_ 14 true)) = 14%nat).
Proof.
  apply (enough_items_are_gathered demo_server demo_random
           (demo_state random_ 14 true)).
  - reflexivity.
  - vm_compute. discriminate.
Defined.

(** ** Page loads *)

Lemma pick_indices_empty_buffer (random : nat → Q) (strat : Strategy)
    (sel : option Z) (n : Z) :
  0 < n → pick_indices random strat sel n 0 = [].
Proof.
  intros Hn.
  pose proof (pick_indices_length random strat sel n 0) as Hlen.
  rewrite Z.min_r in Hlen by lia.
  destruct (pick_indices random strat sel n 0); [done|simpl in Hlen; lia].
Qed.

(** X14. A page load that fails, and is not stale, leaves an empty table
    with a total of zero. Bulk selection on that state, on any page from 1
    on, fetches nothing and picks nothing: the selection stays as it is
    with [addToExisting] on, and is emptied with it off. *)
Theorem bulk_selection_after_failed_load (server : Z → Response)
    (random : nat → Q) (t : Table) :
  1 ≤ page (view t) →
  0 < targetCount (view t) →
  let st := view (fetchPage_settle false PageRejected t) in
  rows st = [] ∧ totalRecords st = 0 ∧ totalPagesOf (totalRecords st) = 1
  ∧ loading (fetchPage_settle false PageRejected t) = false
  ∧ (applyAutoSelect server random st).2 = []
  ∧ selection_indices server random st = []
  ∧ selectedMap (applyAutoSelect server random st).1
    = if addToExisting (view t) then selectedMap (view t) else ∅.
Proof.
  intros Hp Hn st.
  assert (0 < targetCount st) as Hn' by exact Hn.
  destruct (gather_run server st) as (k & Ht & Hbuf & Hf & _).
  assert (k = 0) as -> by (change (page st) with (page (view t)) in Ht;
                           change (totalPagesOf (totalRecords st)) with 1 in Ht;
                           lia).
  rewrite buffer_after_0 in Hbuf. change (rows st) with (@nil Artwork) in Hbuf.
  assert (selection_indices server random st = []) as Hidx.
  { unfold selection_indices. rewrite Hbuf. by apply pick_indices_empty_buffer. }
  rewrite applyAutoSelect_run by done. cbn [fst snd].
  rewrite selectedMap_written, Hidx, Hf.
  repeat split.
Qed.

Lemma bulk_selection_after_failed_load_witness :
  let t := mkTable (demo_state first 5 false) true in
  let st := view (fetchPage_settle false PageRejected t) in
  rows st = [] ∧ totalRecords st = 0 ∧ totalPagesOf (totalRecords st) = 1
  ∧ loading (fetchPage_settle false PageRejected t) = false
  ∧ (applyAutoSelect demo_server demo_random st).2 = []
  ∧ selection_indices demo_server demo_random st = []
  ∧ selectedMap (applyAutoSelect demo_server demo_random st).1 = ∅.
Proof.
  apply (bulk_selection_after_failed_load demo_server demo_random
           (mkTable (demo_state first 5 false) true)).
  - reflexivity.
  - reflexivity.
Defined.

(** X15. Changing the page and loading it, whatever the server answers and
    whether or not the answer is stale, never changes the selection: a row
    is shown selected after the load exactly when it was before. A stale
    answer changes nothing at all; any other answer ends the loading state
    and shows the rows and the total of the answer, or none and zero when
    the answer lacks them. *)
Theorem page_load_keeps_selection (t : Table) (event_page : Z)
    (cancelled : bool) (resp : PageResponse) (row : Artwork) :
  let t0 := fetchPage_begin (mkTable (onPageChange event_page (view t))
                                     (loading t)) in
  let t' := fetchPage_settle cancelled resp t0 in
  selectedMap (view t') = selectedMap (view t)
  ∧ isSelected (view t') row = isSelected (view t) row
  ∧ page (view t') = event_page + 1
  ∧ paginatorFirst (view t') = event_page * rowsPerPage
  ∧ (cancelled = true → t' = t0)
  ∧ (cancelled = false →
     loading t' = false
     ∧ rows (view t')
       = match resp with
         | PageResolved (Some d) _ => d
         | _ => []
         end
     ∧ totalRecords (view t')
       = match resp with
         | PageResolved _ (Some n) => n
         | _ => 0
         end).
Proof.
  intros t0 t'. subst t0 t'. unfold paginatorFirst.
  destruct cancelled, resp as [|[d|] [n|]]; cbn;
    repeat split; try done; lia.
Qed.

(** X16. The upper bound of the number input is never below its lower
    bound 1, and never below the number of loaded rows or the total; it is
    999 when nothing is loaded and the total is not positive. *)
Theorem input_range_is_never_empty (st : State) :
  1 ≤ inputMax st
  ∧ Z.of_nat (length (rows st)) ≤ inputMax st
  ∧ totalRecords st ≤ inputMax st
  ∧ (rows st = [] → totalRecords st ≤ 0 → inputMax st = 999).
Proof.
  unfold inputMax.
  destruct (Z.eqb_spec (Z.of_nat (length (rows st)) `max` totalRecords st) 0)
    as [H0|H0].
  - repeat split; lia.
  - repeat split; try lia.
    intros Hr Ht. rewrite Hr in H0. simpl in H0. lia.
Qed.

(** ** Thumbnails *)

Lemma list_ascii_of_string_app (a b : string) :
  list_ascii_of_string (a +:+ b)
  = list_ascii_of_string a ++ list_ascii_of_string b.
Proof. induction a as [|c a IH]; [done|]. simpl. by rewrite IH. Qed.

Lemma string_app_inv_tail (a b r : string) : a +:+ r = b +:+ r → a = b.
Proof.
  intros H. apply (f_equal list_ascii_of_string) in H.
  rewrite !list_ascii_of_string_app in H. apply app_inv_tail in H.
  apply (f_equal string_of_list_ascii) in H.
  by rewrite !string_of_list_ascii_of_string in H.
Qed.

(** X17. A row without an image id, or with an empty one, gets the "no
    image" box; any other id gets a URL, and at a given width two ids give
    the same URL only when they are the same id. *)
Theorem thumbnail_url_per_image (a b : string) (w : Z) :
  iiifImageUrl None w = None
  ∧ iiifImageUrl (Some EmptyString) w = None
  ∧ (a ≠ EmptyString → is_Some (iiifImageUrl (Some a) w))
  ∧ (a ≠ EmptyString → b ≠ EmptyString →
     iiifImageUrl (Some a) w = iiifImageUrl (Some b) w → a = b).
Proof.
  unfold iiifImageUrl. repeat split.
  - intros Ha. destruct (String.eqb_spec a EmptyString); [done|eauto].
  - intros Ha Hb.
    destruct (String.eqb_spec a EmptyString); [done|].
    destruct (String.eqb_spec b EmptyString); [done|].
    intros [= H].
    apply (string_app_inv_tail a b
             ("/full/" +:+ pretty w +:+ ",/0/default.jpg")).
    exact H.
Qed.

Lemma thumbnail_url_per_image_witness :
  is_Some (iiifImageUrl (Some "abc") 160)
  ∧ (iiifImageUrl (Some "abc") 160 = iiifImageUrl (Some "abd") 160 →
     "abc" = "abd").
Proof.
  split.
  - apply (thumbnail_url_per_image "abc" "abd" 160). discriminate.
  - apply (thumbnail_url_per_image "abc" "abd" 160); discriminate.
Defined.

(** ** Persisting and reloading the selection *)

Lemma lex_escape_char (c : ascii) (tail : list ascii) :
  lex_string_body (json_escape_char c ++ tail)
  = b ← lex_string_body tail; Some (c :: b.1, b.2).
Proof.
  destruct c as [[] [] [] [] [] [] [] []]; reflexivity.
Qed.

(** An escaped string is read back as the string itself. *)
Lemma lex_escaped (cs rest : list ascii) :
  lex_string_body (flat_map json_escape_char cs ++ dq_char :: rest)
  = Some (cs, rest).
Proof.
  induction cs as [|c cs IH]; [done|].
  simpl. rewrite <- app_assoc, lex_escape_char, IH. done.
Qed.

Lemma pretty_N_char_digit (n : N) : is_digit (pretty_N_char n) = true.
Proof. unfold pretty_N_char. by repeat case_match. Qed.

Lemma pretty_N_char_nonzero (n : N) :
  (0 < n < 10)%N → code (pretty_N_char n) ≠ 48.
Proof.
  intros Hn.
  assert (n = 1 ∨ n = 2 ∨ n = 3 ∨ n = 4 ∨ n = 5 ∨ n = 6 ∨ n = 7 ∨ n = 8
          ∨ n = 9)%N as Hc by lia.
  repeat (destruct Hc as [->|Hc]; [by vm_compute|]). subst. by vm_compute.
Qed.

(** The decimal text of a positive number: a non-zero digit, then
    digits. *)
Lemma pretty_N_go_chars (x : N) (s : string) :
  (0 < x)%N →
  ∃ d ds, list_ascii_of_string (pretty_N_go x s)
          = d :: ds ++ list_ascii_of_string s
    ∧ is_digit d = true ∧ code d ≠ 48
    ∧ Forall (λ c, is_digit c = true) ds.
Proof.
  revert s. induction (N.lt_wf_0 x) as [x _ IH]; intros s Hx.
  rewrite pretty_N_go_step by done.
  destruct (decide (x `div` 10 = 0)%N) as [Hz|Hz].
  - rewrite Hz, pretty_N_go_0. simpl.
    exists (pretty_N_char (x `mod` 10)), []. simpl.
    assert (x < 10)%N by (apply N.div_small_iff in Hz; lia).
    rewrite N.mod_small by done.
    split; [done|]. split; [apply pretty_N_char_digit|].
    split; [apply pretty_N_char_nonzero; lia|done].
  - destruct (IH (x `div` 10)%N) with
      (s := String (pretty_N_char (x `mod` 10)) s)
      as (d & ds & Heq & Hd & Hd0 & Hds).
    { apply N.div_lt; lia. }
    { by apply N.neq_0_lt_0. }
    exists d, (ds ++ [pretty_N_char (x `mod` 10)]).
    rewrite Heq. simpl. rewrite <- app_assoc. simpl.
    split; [done|]. split; [done|]. split; [done|].
    apply Forall_app. split; [done|].
    constructor; [apply pretty_N_char_digit|done].
Qed.

Lemma span_digits_stop (ds rest : list ascii) :
  Forall (λ c, is_digit c = true) ds →
  match rest with [] => True | c :: _ => is_digit c = false end →
  span_digits (ds ++ rest) = (ds, rest).
Proof.
  intros Hds Hrest. induction Hds as [|c ds Hc _ IH].
  - simpl. destruct rest as [|c r]; [done|]. simpl. by rewrite Hrest.
  - simpl. rewrite Hc, IH. done.
Qed.

Lemma lex_frac_stop (rest : list ascii) :
  stops_number rest → lex_frac rest = Some ([], rest).
Proof.
  destruct rest as [|c r]; [done|]. intros (_ & H & _). simpl.
  by destruct (Z.eqb_spec (code c) 46).
Qed.

Lemma lex_exp_stop (rest : list ascii) :
  stops_number rest → lex_exp rest = Some ([], rest).
Proof.
  destruct rest as [|c r]; [done|]. intros (_ & _ & H1 & H2). simpl.
  destruct (Z.eqb_spec (code c) 101); [done|].
  by destruct (Z.eqb_spec (code c) 69).
Qed.

Lemma digit_code (c : ascii) : is_digit c = true → 48 ≤ code c ≤ 57.
Proof. unfold is_digit. lia. Qed.

Lemma lex_digits (d : ascii) (ds rest : list ascii) :
  is_digit d = true → code d ≠ 48 →
  Forall (λ c, is_digit c = true) ds →
  stops_number rest →
  lex_number (d :: ds ++ rest) = Some (d :: ds, rest)
  ∧ lex_number ("-"%char :: d :: ds ++ rest)
    = Some ("-"%char :: d :: ds, rest).
Proof.
  intros Hd Hd0 Hds Hrest.
  assert (lex_int (d :: ds ++ rest) = Some (d :: ds, rest)) as Hint.
  { simpl. destruct (Z.eqb_spec (code d) 48); [done|].
    rewrite Hd, span_digits_stop; [done|done|].
    destruct rest; [done|]. by destruct Hrest. }
  pose proof (digit_code d Hd) as Hrange.
  split; unfold lex_number.
  - destruct (Z.eqb_spec (code d) 45); [lia|]. cbn [fst snd].
    rewrite Hint. cbn. rewrite lex_frac_stop by done. cbn.
    rewrite lex_exp_stop by done. cbn. by rewrite !app_nil_r.
  - change (code "-" =? 45) with true. cbn [fst snd].
    rewrite Hint. cbn. rewrite lex_frac_stop by done. cbn.
    rewrite lex_exp_stop by done. cbn. by rewrite !app_nil_r.
Qed.

(** The decimal text of an integer is read back as one number. *)
Lemma lex_number_pretty (z : Z) (rest : list ascii) :
  stops_number rest →
  lex_number (list_ascii_of_string (pretty z) ++ rest)
  = Some (list_ascii_of_string (pretty z), rest).
Proof.
  intros Hrest. destruct z as [|p|p].
  - change (pretty 0) with "0". simpl. unfold lex_number.
    change (code "0" =? 45) with false. cbn [fst snd].
    change (lex_int ("0"%char :: rest)) with (Some (["0"%char], rest)). cbn.
    rewrite lex_frac_stop by done. cbn.
    rewrite lex_exp_stop by done. done.
  - destruct (pretty_N_go_chars (N.pos p) "") as (d & ds & Heq & Hd & H0 & Hds);
      [lia|].
    change (list_ascii_of_string "") with (@nil ascii) in Heq.
    rewrite app_nil_r in Heq.
    change (pretty (Z.pos p)) with (pretty_N_go (N.pos p) "").
    rewrite Heq. by apply lex_digits.
  - destruct (pretty_N_go_chars (N.pos p) "") as (d & ds & Heq & Hd & H0 & Hds);
      [lia|].
    change (list_ascii_of_string "") with (@nil ascii) in Heq.
    rewrite app_nil_r in Heq.
    change (list_ascii_of_string (pretty (Z.neg p)))
      with ("-"%char :: list_ascii_of_string (pretty_N_go (N.pos p) "")).
    rewrite Heq. by apply lex_digits.
Qed.

(** Decide the tests on characters that are known. *)
Ltac eval_char_tests :=
  repeat (match goal with
          | |- context [code ?c =? ?n] =>
              let b := eval vm_compute in (code c =? n) in
              match b with true => idtac | false => idtac end;
              change (code c =? n) with b
          | |- context [is_ws ?c] =>
              let b := eval vm_compute in (is_ws c) in
              match b with true => idtac | false => idtac end;
              change (is_ws c) with b
          end;
          cbv beta iota).

Ltac parse_steps :=
  repeat first
    [ progress eval_char_tests
    | progress cbn [skip_ws app mbind option_bind option_ret fst snd] ].

Lemma parse_quoted (f : nat) (s : string) (rest : list ascii) :
  parse_value (S f) (json_quote s ++ rest) = Some (JString s, rest).
Proof.
  unfold json_quote, json_escape. rewrite <- app_comm_cons, <- app_assoc.
  cbn [parse_value skip_ws app]. eval_char_tests.
  rewrite lex_escaped. cbn [mbind option_bind fst snd].
  by rewrite string_of_list_ascii_of_string.
Qed.

Lemma parse_number_head (f : nat) (c : ascii) (tail : list ascii) :
  is_digit c = true ∨ c = "-"%char →
  parse_value (S f) (c :: tail)
  = n ← lex_number (c :: tail);
    Some (JNumber (string_of_list_ascii n.1), n.2).
Proof.
  intros [H| ->]; [|reflexivity].
  destruct c as [[] [] [] [] [] [] [] []];
    try (vm_compute in H; discriminate H); reflexivity.
Qed.

Lemma pretty_Z_head (z : Z) :
  ∃ c cs, list_ascii_of_string (pretty z) = c :: cs
    ∧ (is_digit c = true ∨ c = "-"%char)
    ∧ Forall (λ c, is_digit c = true ∨ c = "-"%char) (c :: cs).
Proof.
  destruct z as [|p|p].
  - exists "0"%char, []. split; [done|]. split; [by left|].
    constructor; [by left|done].
  - destruct (pretty_N_go_chars (N.pos p) "") as (d & ds & Heq & Hd & _ & Hds);
      [lia|].
    change (list_ascii_of_string "") with (@nil ascii) in Heq.
    rewrite app_nil_r in Heq.
    exists d, ds. change (pretty (Z.pos p)) with (pretty_N_go (N.pos p) "").
    split; [done|]. split; [by left|].
    constructor; [by left|]. eapply Forall_impl; [exact Hds|]. by left.
  - destruct (pretty_N_go_chars (N.pos p) "") as (d & ds & Heq & Hd & _ & Hds);
      [lia|].
    change (list_ascii_of_string "") with (@nil ascii) in Heq.
    rewrite app_nil_r in Heq.
    exists "-"%char, (d :: ds).
    change (list_ascii_of_string (pretty (Z.neg p)))
      with ("-"%char :: list_ascii_of_string (pretty_N_go (N.pos p) "")).
    rewrite Heq. split; [done|]. split; [by right|].
    constructor; [by right|]. constructor; [by left|].
    eapply Forall_impl; [exact Hds|]. by left.
Qed.

(** An integer in decimal is parsed as that number. *)
Lemma parse_pretty (f : nat) (z : Z) (rest : list ascii) :
  stops_number rest →
  parse_value (S f) (list_ascii_of_string (pretty z) ++ rest)
  = Some (JNumber (pretty z), rest).
Proof.
  intros Hrest.
  destruct (pretty_Z_head z) as (c & cs & Heq & Hc & _).
  pose proof (lex_number_pretty z rest Hrest) as Hlex.
  rewrite Heq in *. rewrite <- app_comm_cons in *.
  rewrite parse_number_head, Hlex by done.
  cbn [mbind option_bind option_ret fst snd].
  by rewrite <- Heq, string_of_list_ascii_of_string.
Qed.

(** One member of an object, with the closing brace or a comma after
    it. *)
Lemma parse_member_last (F : nat) (name : string) (valtext : list ascii)
    (v : JSValue) (rest : list ascii) :
  parse_value F (valtext ++ "}"%char :: rest) = Some (v, "}"%char :: rest) →
  parse_members (S F)
    (json_quote name ++ ":"%char :: valtext ++ "}"%char :: rest)
  = Some ([(name, v)], rest).
Proof.
  intros Hval. unfold json_quote, json_escape.
  rewrite <- app_comm_cons, <- app_assoc.
  cbn [parse_members skip_ws app]. eval_char_tests.
  rewrite lex_escaped. cbn [mbind option_bind fst snd skip_ws].
  eval_char_tests. rewrite Hval. cbn [mbind option_bind fst snd skip_ws].
  eval_char_tests. by rewrite string_of_list_ascii_of_string.
Qed.

Lemma parse_member_more (F : nat) (name : string) (valtext : list ascii)
    (v : JSValue) (more : list ascii) :
  parse_value F (valtext ++ ","%char :: more) = Some (v, ","%char :: more) →
  parse_members (S F)
    (json_quote name ++ ":"%char :: valtext ++ ","%char :: more)
  = ms ← parse_members F more;
    Some ((name, v) :: ms.1, ms.2).
Proof.
  intros Hval. unfold json_quote, json_escape.
  rewrite <- app_comm_cons, <- app_assoc.
  cbn [parse_members skip_ws app]. eval_char_tests.
  rewrite lex_escaped. cbn [mbind option_bind fst snd skip_ws].
  eval_char_tests. rewrite Hval. cbn [mbind option_bind fst snd skip_ws].
  eval_char_tests. by rewrite string_of_list_ascii_of_string.
Qed.

(** Bring a text into the shape [c1 :: ... ++ (... ++ ...)]. *)
Ltac flatten_text :=
  repeat first [ rewrite <- app_assoc | progress cbn [app] ].

Lemma parse_object (F : nat) (name : string) (text : list ascii)
    (ms : list (string * JSValue)) (rest : list ascii) :
  parse_members F (json_quote name ++ text) = Some (ms, rest) →
  parse_value (S F) ("{"%char :: json_quote name ++ text)
  = Some (JObject ms, rest).
Proof.
  unfold json_quote. rewrite <- app_comm_cons.
  intros Hms. cbn [parse_value]. parse_steps.
  rewrite Hms. done.
Qed.

Lemma stops_at_brace (tl : list ascii) : stops_number ("}"%char :: tl).
Proof. by vm_compute. Qed.

Lemma stops_at_comma (tl : list ascii) : stops_number (","%char :: tl).
Proof. by vm_compute. Qed.

(** A stored record is parsed back as its value, whatever follows it. *)
Lemma parse_record (f : nat) (r : SelectedMeta) (tl : list ascii) :
  parse_value (5 + f) (stringify_record r ++ tl)
  = Some (value_of_record r, tl).
Proof.
  unfold stringify_record, value_of_record, json_optional_field,
    value_of_field.
  change (5 + f)%nat with (S (4 + f)).
  destruct (sm_title r) as [t|], (sm_artist_display r) as [a|];
    flatten_text; apply parse_object.
  - rewrite (parse_member_more (3 + f) "id" _ (JNumber (pretty (sm_id r))))
      by apply parse_pretty, stops_at_comma.
    rewrite (parse_member_more (2 + f) "title" _
               (JString t))
      by apply parse_quoted.
    rewrite (parse_member_last (1 + f) "artist_display" _
               (JString a))
      by apply parse_quoted.
    reflexivity.
  - rewrite (parse_member_more (3 + f) "id" _ (JNumber (pretty (sm_id r))))
      by apply parse_pretty, stops_at_comma.
    rewrite (parse_member_last (2 + f) "title" _
               (JString t))
      by apply parse_quoted.
    reflexivity.
  - rewrite (parse_member_more (3 + f) "id" _ (JNumber (pretty (sm_id r))))
      by apply parse_pretty, stops_at_comma.
    rewrite (parse_member_last (2 + f) "artist_display" _
               (JString a))
      by apply parse_quoted.
    reflexivity.
  - rewrite (parse_member_last (3 + f) "id" _ (JNumber (pretty (sm_id r))))
      by apply parse_pretty, stops_at_brace.
    reflexivity.
Qed.

(** The entries of a non-empty selection are parsed back in their order,
    with fuel to spare. *)
Lemma parse_entries (l : list (Z * SelectedMeta)) (f : nat)
    (rest : list ascii) :
  l ≠ [] →
  parse_members (length l + 5 + f) (join_entries l ++ "}"%char :: rest)
  = Some (value_of_entry <$> l, rest).
Proof.
  induction l as [|e l IH]; [done|]. intros _.
  destruct l as [|e' l].
  - cbn [join_entries length]. unfold stringify_entry.
    flatten_text.
    rewrite (parse_member_last (5 + f) (pretty e.1) _ (value_of_record e.2))
      by apply parse_record.
    done.
  - change (join_entries (e :: e' :: l))
      with (stringify_entry e ++ ","%char :: join_entries (e' :: l)).
    unfold stringify_entry. flatten_text.
    change (length (e :: e' :: l) + 5 + f)%nat
      with (S (length (e' :: l) + 5 + f)).
    rewrite (parse_member_more _ (pretty e.1) _ (value_of_record e.2)).
    + by rewrite IH.
    + replace (length (e' :: l) + 5 + f)%nat
        with (5 + (length l + S f))%nat by (simpl; lia).
      apply parse_record.
Qed.

Lemma join_entries_length (l : list (Z * SelectedMeta)) :
  (length l ≤ length (join_entries l))%nat.
Proof.
  induction l as [|e l IH]; [done|].
  destruct l as [|e' l].
  - cbn [join_entries]. unfold stringify_entry, json_quote.
    rewrite <- app_comm_cons. simpl. lia.
  - change (join_entries (e :: e' :: l))
      with (stringify_entry e ++ ","%char :: join_entries (e' :: l)).
    rewrite length_app. change (length (e :: e' :: l)) with (S (length (e' :: l))).
    change (length (","%char :: join_entries (e' :: l)))
      with (S (length (join_entries (e' :: l)))).
    lia.
Qed.

Lemma join_entries_head (e : Z * SelectedMeta) (l : list (Z * SelectedMeta)) :
  ∃ text, join_entries (e :: l) = json_quote (pretty e.1) ++ text.
Proof.
  destruct l as [|e' l].
  - exists (":"%char :: stringify_record e.2). done.
  - exists (":"%char :: stringify_record e.2
            ++ ","%char :: join_entries (e' :: l)).
    change (join_entries (e :: e' :: l))
      with (stringify_entry e ++ ","%char :: join_entries (e' :: l)).
    unfold stringify_entry. by rewrite <- app_assoc.
Qed.

(** What is written is read back: the object with the same entries in the
    same order. *)
Lemma JSON_parse_stringify (l : list (Z * SelectedMeta)) :
  JSON_parse (JSON_stringify l) = Some (JObject (value_of_entry <$> l)).
Proof.
  unfold JSON_parse, JSON_stringify.
  rewrite list_ascii_of_string_of_list_ascii.
  destruct l as [|e l]; [done|].
  set (text := join_entries (e :: l)).
  assert (∃ F, (2 * length ("{"%char :: text ++ ["}"%char]) + 2
                = S (length (e :: l) + 5 + F))%nat) as [F ->].
  { pose proof (join_entries_length (e :: l)) as Hlen. fold text in Hlen.
    exists (2 * length ("{"%char :: text ++ ["}"%char]) + 2
            - S (length (e :: l) + 5))%nat.
    cbn [length] in *. rewrite length_app. cbn [length] in *. lia. }
  destruct (join_entries_head e l) as [tx Htx].
  assert (parse_value (S (length (e :: l) + 5 + F))
            ("{"%char :: text ++ ["}"%char])
          = Some (JObject (value_of_entry <$> e :: l), [])) as ->.
  { subst text. rewrite Htx, <- app_assoc. apply parse_object.
    rewrite app_assoc, <- Htx. by apply parse_entries. }
  done.
Qed.

Lemma member_last_absent (l : list (Z * SelectedMeta)) (k : Z) :
  k ∉ l.*1 → member_last (pretty k) (value_of_entry <$> l) = None.
Proof.
  induction l as [|[k' v] l IH]; [done|].
  rewrite fmap_cons, not_elem_of_cons. intros [Hne Hk].
  cbn [fmap list_fmap value_of_entry member_last fst snd].
  change (list_fmap _ _ value_of_entry l) with (value_of_entry <$> l).
  rewrite IH by done.
  destruct (String.eqb_spec (pretty k') (pretty k)) as [Heq|]; [|done].
  apply (inj pretty) in Heq. by subst.
Qed.

Lemma member_last_present (l : list (Z * SelectedMeta)) (k : Z)
    (v : SelectedMeta) :
  NoDup l.*1 → (k, v) ∈ l →
  member_last (pretty k) (value_of_entry <$> l) = Some (value_of_record v).
Proof.
  induction l as [|[k' v'] l IH]; intros Hnd Hin.
  - by apply elem_of_nil in Hin.
  - rewrite fmap_cons in Hnd. apply NoDup_cons in Hnd as [Hk' Hnd].
    cbn [fmap list_fmap value_of_entry member_last fst snd].
    change (list_fmap _ _ value_of_entry l) with (value_of_entry <$> l).
    apply elem_of_cons in Hin as [Heq|Hin].
    + injection Heq as -> ->. rewrite member_last_absent by done.
      by rewrite String.eqb_refl.
    + by rewrite IH.
Qed.

Lemma live_members_Forall (P : string * JSValue → Prop)
    (ms : list (string * JSValue)) :
  Forall P ms → Forall P (live_members ms).
Proof.
  induction 1 as [|[k v] ms Hkv _ IH]; [done|].
  cbn [live_members]. destruct (existsb _ ms); [done|by constructor].
Qed.

Lemma existsb_none {A} (f : A → bool) (l : list A) :
  Forall (λ x, f x = false) l → existsb f l = false.
Proof. induction 1 as [|x l Hx _ IH]; [done|]. simpl. by rewrite Hx, IH. Qed.

(** The entry of a stored record renders. *)
Lemma entry_throws_record (r : SelectedMeta) :
  entry_throws (value_of_record r) = false.
Proof.
  unfold value_of_record, value_of_field.
  by destruct (sm_title r), (sm_artist_display r).
Qed.

(** X18. The selection that the effect writes to storage is read back at
    the next start, whatever the order in which the engine writes the
    entries: the initial value is an object with one member per selected
    id, holding the id, the title and the artist of the record, a missing
    title or artist staying missing; an id that was not selected has no
    member; the first render does not throw on it: no entry is [null], no
    key fails to become a string and every child is a string. If
    [setItem] throws, the slot keeps what it held. *)
Theorem persisted_selection_is_reloaded (m : gmap Z SelectedMeta)
    (l : list (Z * SelectedMeta)) (old : option string) :
  l ≡ₚ map_to_list m →
  let reloaded := initSelectedMap (ReadValue (persistSelection false l old)) in
  reloaded = JObject (value_of_entry <$> l)
  ∧ (∀ k, js_get reloaded (pretty k) = value_of_record <$> m !! k)
  ∧ length (value_of_entry <$> l) = size m
  ∧ render_throws reloaded = false
  ∧ persistSelection true l old = old.
Proof.
  intros Hl reloaded.
  assert (reloaded = JObject (value_of_entry <$> l)) as Hre.
  { subst reloaded. unfold persistSelection, initSelectedMap.
    rewrite JSON_parse_stringify. unfold JSON_stringify.
    cbn [string_of_list_ascii]. done. }
  rewrite Hre. split; [done|]. split; [|split; [|split; [|done]]].
  - intros k. cbn [js_get].
    assert (NoDup l.*1) as Hnd.
    { rewrite Hl. apply NoDup_fst_map_to_list. }
    destruct (m !! k) as [v|] eqn:Hk; cbn [fmap option_fmap option_map].
    + apply member_last_present; [done|].
      rewrite Hl. by apply elem_of_map_to_list.
    + apply member_last_absent. intros Hin.
      apply list_elem_of_fmap in Hin as ([k' v] & -> & Hin).
      rewrite Hl in Hin. apply elem_of_map_to_list in Hin.
      simpl in Hk. congruence.
  - rewrite length_fmap, Hl. apply length_map_to_list.
  - cbn [render_throws]. apply existsb_none, live_members_Forall.
    apply Forall_fmap, Forall_forall. intros [k r] _.
    apply entry_throws_record.
Qed.

Lemma persisted_selection_is_reloaded_witness :
  let m : gmap Z SelectedMeta :=
    {[ 27992 := mkSelectedMeta 27992 (Some "A Sunday") None ]} in
  let reloaded :=
    initSelectedMap (ReadValue (persistSelection false (map_to_list m) None)) in
  reloaded = JObject (value_of_entry <$> map_to_list m)
  ∧ (∀ k, js_get reloaded (pretty k) = value_of_record <$> m !! k)
  ∧ length (value_of_entry <$> map_to_list m) = size m
  ∧ render_throws reloaded = false
  ∧ persistSelection true (map_to_list m) None = None.
Proof.
  apply (persisted_selection_is_reloaded
           {[ 27992 := mkSelectedMeta 27992 (Some "A Sunday") None ]}
           (map_to_list
              ({[ 27992 := mkSelectedMeta 27992 (Some "A Sunday") None ]}
               : gmap Z SelectedMeta))
           None).
  reflexivity.
Defined.

Example stringify_sample :
  JSON_stringify [(27992, mkSelectedMeta 27992 (Some "A Sunday") None)]
  = demo_blob.
Proof. vm_compute. reflexivity. Qed.
